(** * stock-game1: live ingestion, alerting and scheduled jobs

    A shallow embedding of the workers of the trading cockpit:

    - [workers/alert_manager.py]         (module [AlertManager])
    - [workers/shioaji_worker.py]        (module [ShioajiWorker])
    - [workers/institutional_worker.py]  (module [Jobs])
    - [workers/ai_analyzer.py]           (module [Jobs])

    Python dictionaries are [gmap]s, the SQLite table [stock_alerts] is a
    list of rows, exceptions are an explicit error result, and everything
    the code reads from outside (the clock, the quoting API, the outcome
    of a network call) is an argument of the function that reads it. *)

From Stdlib Require Import ZArith QArith Lia Ascii String.
From stdpp Require Import gmap strings list fin_maps sorting.

Local Open Scope string_scope.
Local Open Scope Z_scope.
Local Open Scope list_scope.

#[local] Set Warnings "-clear-no-such-hyp".

(** ** Python values and exceptions *)

(** The scalars a dictionary field or an object attribute holds in this
    program.  Numbers (Python [int] and finite [float]) are rationals: the
    code only compares them, apart from the VWAP computation, whose float
    division and rounding are parameters. *)
Inductive value : Type :=
  | VNone
  | VNum (q : Q)
  | VStr (s : string).

(** A raised [Exception], with its message. *)
Inductive exn : Type :=
  | Raise (msg : string).

(** The outcome of a call: a returned value or a raised exception. *)
Inductive result (A : Type) : Type :=
  | Ret (a : A)
  | Exc (e : exn).
Arguments Ret {A} a.
Arguments Exc {A} e.

(** Sequencing: the first exception ends the computation. *)
#[export] Instance result_ret : MRet result := λ A a, Ret a.
#[export] Instance result_bind : MBind result := λ A B f r,
  match r with Ret a => f a | Exc e => Exc e end.

Definition exn_message (e : exn) : string :=
  match e with Raise m => m end.

(** [x <= y] and [x > y] on Python numbers. *)
Definition num_le (a b : Q) : bool := Qle_bool a b.
Definition num_gt (a b : Q) : bool := negb (Qle_bool a b).

(** Truthiness, as [if x], [not x] and [x or y] test it. *)
Definition truthy (v : value) : bool :=
  match v with
  | VNone => false
  | VNum q => negb (Qeq_bool q 0)
  | VStr s => negb (String.eqb s "")
  end.

(** ** workers/alert_manager.py *)

Module AlertManager.

(** One row of the table [stock_alerts] (database/db.py):
    [id INTEGER PRIMARY KEY AUTOINCREMENT], [is_triggered INTEGER DEFAULT 0],
    timestamps as seconds. *)
Record alert_row : Type := mkAlert {
  id : Z;
  stock_id : string;
  stock_name : string;
  alert_type : string;
  target_price : Q;
  is_triggered : Z;
  triggered_at : option Z;
  created_at : Z
}.

(** The table, in storage order. *)
Abbreviation store := (list alert_row).

(** A quote is a dictionary of fields; [quotes] maps a symbol to its quote. *)
Abbreviation quote := (gmap string value).
Abbreviation quotes := (gmap string (gmap string value)).

(** The dictionary [alert_msg] appended to [newly_triggered].  The
    display text [message] is a function of the other fields and is left
    out. *)
Record trigger_event : Type := mkEvent {
  ev_id : Z;
  ev_stock_id : string;
  ev_stock_name : string;
  ev_alert_type : string;
  ev_target_price : Q;
  ev_current_price : Q;
  ev_triggered_at : Z
}.

(** The manager object: the table and the in-memory list
    [self.triggered_alerts]. *)
Record manager : Type := mkManager {
  db : store;
  triggered_alerts : list trigger_event
}.

(** [ORDER BY created_at DESC] *)
Definition created_desc (a b : alert_row) : Prop := created_at b <= created_at a.

#[export] Instance created_desc_dec : RelDecision created_desc :=
  fun a b => Z_le_dec (created_at b) (created_at a).

Definition is_active (r : alert_row) : Prop := is_triggered r = 0.

#[export] Instance is_active_dec r : Decision (is_active r) :=
  Z.eq_dec (is_triggered r) 0.

(** [SELECT * FROM stock_alerts WHERE is_triggered = 0 ORDER BY created_at DESC] *)
Definition get_active_alerts (s : store) : list alert_row :=
  merge_sort created_desc (filter is_active s).

(** [UPDATE stock_alerts SET is_triggered = 1, triggered_at = CURRENT_TIMESTAMP
     WHERE id = ?] *)
Definition mark_row (now : Z) (i : Z) (r : alert_row) : alert_row :=
  if Z.eqb (id r) i
  then mkAlert (id r) (stock_id r) (stock_name r) (alert_type r)
               (target_price r) 1 (Some now) (created_at r)
  else r.

Definition mark_triggered (now : Z) (i : Z) (s : store) : store :=
  mark_row now i <$> s.

(** The decision taken for one alert inside the loop of [check_alerts]. *)
Inductive verdict : Type :=
  | Skip
  | Quiet
  | Fire (current_price : Q)
  | TypeError.

(** Lines 95-109: [quotes.get(stock_id)], [quote.get("price", 0)], the
    guard [current_price <= 0] and the two comparisons.  A price that is
    not a number cannot be compared with [0]. *)
Definition evaluate (qs : quotes) (a : alert_row) : verdict :=
  match qs !! stock_id a with
  | None => Skip
  | Some quote =>
      if decide (quote = ∅) then Skip
      else
        match default (VNum 0) (quote !! "price") with
        | VNum current_price =>
            if num_le current_price 0 then Skip
            else if String.eqb (alert_type a) "above"
                    && num_le (target_price a) current_price then Fire current_price
            else if String.eqb (alert_type a) "below"
                    && num_le current_price (target_price a) then Fire current_price
            else Quiet
        | _ => TypeError
        end
  end.

Definition alert_msg (now : Z) (a : alert_row) (current_price : Q) : trigger_event :=
  mkEvent (id a) (stock_id a) (stock_name a) (alert_type a)
          (target_price a) current_price now.

(** The [for alert in active_alerts] loop, over the rows read before the
    loop, against the table as the connection sees it. *)
Fixpoint scan (now : Z) (qs : quotes) (active : list alert_row)
         (s : store) (newly_triggered : list trigger_event)
  : result (store * list trigger_event) :=
  match active with
  | [] => Ret (s, newly_triggered)
  | a :: rest =>
      match evaluate qs a with
      | Skip | Quiet => scan now qs rest s newly_triggered
      | Fire p =>
          scan now qs rest (mark_triggered now (id a) s)
               (newly_triggered ++ [alert_msg now a p])
      | TypeError => Exc (Raise "'<=' not supported")
      end
  end.

(** [self.triggered_alerts[-50:]] *)
Definition keep_last (n : nat) {A} (l : list A) : list A :=
  drop (length l - n) l.

(** [check_alerts(quotes)], on a database whose calls go through.  An
    exception inside the loop leaves through [finally: conn.close()]
    without [commit], so the table keeps its old contents and nothing is
    queued. *)
Definition check_alerts (now : Z) (qs : quotes) (m : manager)
  : manager * result (list trigger_event) :=
  let active_alerts := get_active_alerts (db m) in
  match active_alerts with
  | [] => (m, Ret [])
  | _ =>
      match scan now qs active_alerts (db m) [] with
      | Exc e => (m, Exc e)
      | Ret (s', newly_triggered) =>
          let q := match newly_triggered with
                   | [] => triggered_alerts m
                   | _ => keep_last 50 (triggered_alerts m ++ newly_triggered)
                   end in
          (mkManager s' q, Ret newly_triggered)
      end
  end.

(** [get_recent_triggers(clear)] *)
Definition get_recent_triggers (clear : bool) (m : manager)
  : manager * list trigger_event :=
  (if clear then mkManager (db m) [] else m, triggered_alerts m).

(** The events a call hands back; a raising call hands back none. *)
Definition returned {A} (r : result (list A)) : list A :=
  match r with Ret l => l | Exc _ => [] end.

(** The ids of the table, of its active rows, and of some events. *)
Definition ids (s : store) : list Z := id <$> s.
Definition active_ids (s : store) : list Z := id <$> filter is_active s.
Definition fired (evs : list trigger_event) : list Z := ev_id <$> evs.

(** How many of the events belong to alert [i]. *)
Definition count_fired (i : Z) (evs : list trigger_event) : nat :=
  length (filter (λ e, ev_id e = i) evs).

(** The test of lines 101-109 on a numeric price. *)
Definition condition_holds (a : alert_row) (p : Q) : Prop :=
  (0 < p)%Q ∧
  ((alert_type a = "above" ∧ (target_price a <= p)%Q) ∨
   (alert_type a = "below" ∧ (p <= target_price a)%Q)).

(** The alerts of a list whose condition holds, as the events they produce. *)
Definition firing (now : Z) (qs : quotes) (active : list alert_row) : list trigger_event :=
  omap (λ a, match evaluate qs a with
             | Fire p => Some (alert_msg now a p)
             | _ => None
             end) active.

(** The marking write, for several ids in turn. *)
Definition mark_all (now : Z) (js : list Z) (s : store) : store :=
  foldl (λ s i, mark_triggered now i s) s js.

(** What one call fires on a table, when it does not raise. *)
Definition fires (now : Z) (qs : quotes) (s : store) : list trigger_event :=
  firing now qs (get_active_alerts s).

(** Successive [check_alerts] calls, one per polling tick. *)
Fixpoint run_checks (ticks : list (Z * quotes)) (m : manager)
  : manager * list (list trigger_event) :=
  match ticks with
  | [] => (m, [])
  | (now, qs) :: rest =>
      let '(m1, r) := check_alerts now qs m in
      let '(m2, rs) := run_checks rest m1 in
      (m2, returned r :: rs)
  end.

(** Every event of a run of calls. *)
Definition all_events (ticks : list (Z * quotes)) (m : manager) : list trigger_event :=
  concat (run_checks ticks m).2.

(** The alert "above 1000" on [S], the quote maps of five readings, and an
    alert "below 900" on 2330, active and already triggered at time 100. *)
Definition above_1000 : alert_row := mkAlert 1 "S" "" "above" 1000 0 None 0.
Definition reading (now : Z) (price : Q) : Z * quotes :=
  (now, {[ "S" := {[ "price" := VNum price ]} ]}).
Definition readings : list (Z * quotes) :=
  [reading 1 995; reading 2 1001; reading 3 1002; reading 4 999; reading 5 1003].
Definition below_900 : alert_row := mkAlert 7 "2330" "TSMC" "below" 900 0 None 0.
Definition fired_900 : alert_row := mkAlert 7 "2330" "TSMC" "below" 900 1 (Some 100) 0.

End AlertManager.

(** ** workers/shioaji_worker.py *)

Module ShioajiWorker.

(** *** The objects the worker shares with its callers

    A quote (the dictionary [data]) and a symbol table (the dictionaries
    [self.cache], [results] and the one [dict(self.cache)] builds) are
    heap objects; a symbol table holds references to quotes. *)
Abbreviation loc := positive.

Inductive obj : Type :=
  | Snapshot (fields : gmap string value)
  | Table (entries : gmap string loc).

Abbreviation heap := (gmap loc obj).

Definition alloc (o : obj) (h : heap) : loc * heap :=
  let l := fresh (dom h) in (l, <[l := o]> h).

Definition table_at (h : heap) (l : loc) : option (gmap string loc) :=
  match h !! l with Some (Table t) => Some t | _ => None end.

Definition snapshot_at (h : heap) (l : loc) : option (gmap string value) :=
  match h !! l with Some (Snapshot d) => Some d | _ => None end.

(** What a reader sees through a symbol table: every symbol with the
    fields of the quote it refers to. *)
Definition contents (h : heap) (t : gmap string loc) : gmap string (gmap string value) :=
  omap (snapshot_at h) t.

(** [d[k] = v] and [del d[k]] on a quote, [t[k] = r] and [del t[k]] on a
    symbol table: what a caller holding a reference can do to it. *)
Inductive mutation : Type :=
  | SetField (k : string) (v : value)
  | DelField (k : string)
  | SetEntry (k : string) (r : loc)
  | DelEntry (k : string).

Definition mutate_obj (mu : mutation) (o : obj) : obj :=
  match mu, o with
  | SetField k v, Snapshot d => Snapshot (<[k := v]> d)
  | DelField k, Snapshot d => Snapshot (delete k d)
  | SetEntry k r, Table t => Table (<[k := r]> t)
  | DelEntry k, Table t => Table (delete k t)
  | _, _ => o
  end.

Definition mutate (l : loc) (mu : mutation) (h : heap) : heap :=
  alter (mutate_obj mu) l h.

(** *** The quoting source *)

(** A contract object; only [contract.name] is read. *)
Record contract : Type := mkContract { name : string }.

(** [api.Contracts.Stocks[sid]]: raises, or gives a falsy value, or a contract. *)
Inductive lookup_outcome : Type :=
  | LookupRaises
  | LookupFalsy
  | LookupOk (c : contract).

(** A snapshot object of the source: its attributes. *)
Abbreviation snap := (gmap string value).

(** The session object [self.api]. *)
Record Api : Type := mkApi {
  Stocks : string → lookup_outcome;
  snapshots : list contract → result (list snap)
}.

(** What happens inside [connect()] once it goes past the early return:
    [sj.Shioaji()] raises; or [login] raises; or [login] returns and the
    contract table shows up after [polls] unsuccessful looks. *)
Inductive connect_outcome : Type :=
  | CtorRaises
  | LoginRaises (a : Api)
  | LoginOk (a : Api) (polls : nat).

Definition succeeds (o : connect_outcome) : bool :=
  match o with LoginOk _ _ => true | _ => false end.

(** What the session manager does to the outside world. *)
Inductive effect : Type :=
  | Login
  | Logout
  | Sleep (seconds : Z).

(** *** The worker object *)

Record worker : Type := mkWorker {
  api : option Api;
  is_connected : bool;
  cache : loc;
  last_update : option Z;
  subscribed_stocks : gset string;
  _retry_count : Z
}.

Definition _max_retry : Z := 10.
Definition _retry_delays : list Z := [5; 10; 15; 30; 60; 60; 120; 120; 300; 300].

(** [__init__]: a fresh empty cache. *)
Definition init (h : heap) : worker * heap :=
  let '(c, h') := alloc (Table ∅) h in
  (mkWorker None false c None ∅ 0, h').

Definition set_connected (b : bool) (w : worker) : worker :=
  mkWorker (api w) b (cache w) (last_update w) (subscribed_stocks w) (_retry_count w).
Definition set_api (a : Api) (w : worker) : worker :=
  mkWorker (Some a) (is_connected w) (cache w) (last_update w) (subscribed_stocks w) (_retry_count w).
Definition set_retry_count (n : Z) (w : worker) : worker :=
  mkWorker (api w) (is_connected w) (cache w) (last_update w) (subscribed_stocks w) n.
Definition clear_subscribed (w : worker) : worker :=
  mkWorker (api w) (is_connected w) (cache w) (last_update w) ∅ (_retry_count w).
Definition set_last_update (t : Z) (w : worker) : worker :=
  mkWorker (api w) (is_connected w) (cache w) (Some t) (subscribed_stocks w) (_retry_count w).

(** *** Connection management *)

(** [connect()]: the worker afterwards, what it did, what it returned. *)
Definition connect (o : connect_outcome) (w : worker) : worker * list effect * bool :=
  if is_connected w then (w, [], true)
  else
    match o with
    | CtorRaises => (set_connected false w, [], false)
    | LoginRaises a => (set_connected false (set_api a w), [Login], false)
    | LoginOk a polls =>
        (set_retry_count 0 (set_connected true (set_api a w)),
         Login :: replicate (Nat.min polls 20) (Sleep 1), true)
    end.

(** [disconnect()]: [logout] is called on a connected session; whether it
    raises makes no difference, the [finally] block runs either way. *)
Definition disconnect (w : worker) : worker * list effect :=
  (clear_subscribed (set_connected false w),
   if bool_decide (is_Some (api w)) && is_connected w then [Logout] else []).

(** [reconnect()] *)
Definition reconnect (o : connect_outcome) (w : worker) : worker * list effect * bool :=
  let '(w1, fx1) := disconnect w in
  let delay_idx := Z.min (_retry_count w1) (Z.of_nat (length _retry_delays) - 1) in
  let delay := nth (Z.to_nat delay_idx) _retry_delays 0 in
  let w2 := set_retry_count (_retry_count w1 + 1) w1 in
  if Z.ltb _max_retry (_retry_count w2) then (w2, fx1, false)
  else
    let '(w3, fx3, ok) := connect o w2 in
    (w3, fx1 ++ Sleep delay :: fx3, ok).

(** Successive [reconnect()] calls: the final worker, every effect in
    order, and what each call returned. *)
Fixpoint reconnects (os : list connect_outcome) (w : worker)
  : worker * list effect * list bool :=
  match os with
  | [] => (w, [], [])
  | o :: rest =>
      let '(w1, fx1, ok) := reconnect o w in
      let '(w2, fx2, oks) := reconnects rest w1 in
      (w2, fx1 ++ fx2, ok :: oks)
  end.

(** The calls made on a session manager. *)
Inductive call : Type :=
  | CallConnect (o : connect_outcome)
  | CallDisconnect
  | CallReconnect (o : connect_outcome).

Definition do_call (c : call) (w : worker) : worker :=
  match c with
  | CallConnect o => (connect o w).1.1
  | CallDisconnect => (disconnect w).1
  | CallReconnect o => (reconnect o w).1.1
  end.

(** A connection attempt that fails. *)
Definition fails (o : connect_outcome) : Prop := succeeds o = false.

(** The sleeps and the connection attempts among some effects. *)
Definition sleeps (fx : list effect) : list Z :=
  omap (λ e, match e with Sleep n => Some n | _ => None end) fx.
Definition logins (fx : list effect) : nat :=
  length (List.filter (λ e, match e with Login => true | _ => false end) fx).

(** *** Fetching quotes

    [fetch_snapshots] reads and writes the worker and the heap and may
    raise inside its [try] block: a state-and-exception monad. *)
Definition M (A : Type) : Type := heap * worker → result A * (heap * worker).

#[export] Instance M_ret : MRet M := λ A a st, (Ret a, st).
#[export] Instance M_bind : MBind M := λ A B f c st,
  match c st with
  | (Ret a, st') => f a st'
  | (Exc e, st') => (Exc e, st')
  end.

Definition raise {A} (msg : string) : M A := λ st, (Exc (Raise msg), st).

(** [try: body except Exception: handler] *)
Definition try_except {A} (body : M A) (handler : exn → M A) : M A := λ st,
  match body st with
  | (Ret a, st') => (Ret a, st')
  | (Exc e, st') => handler e st'
  end.

Definition lift {A} (r : result A) : M A := λ st, (r, st).

(** A dictionary display [{...}]: a new object. *)
Definition new (o : obj) : M loc := λ '(h, w),
  let '(l, h') := alloc o h in (Ret l, (h', w)).

(** [t[k] = r] on the symbol table at [l]. *)
Definition setitem (l : loc) (k : string) (r : loc) : M unit := λ '(h, w),
  (Ret tt, (mutate l (SetEntry k r) h, w)).

(** [xs[i]] *)
Definition index {A} (xs : list A) (i : nat) : M A :=
  match xs !! i with
  | Some x => mret x
  | None => raise "IndexError"
  end.

(** Attribute access on a snapshot object. *)
Definition getattr (o : snap) (a : string) : result value :=
  match o !! a with
  | Some v => Ret v
  | None => Exc (Raise "AttributeError")
  end.
Definition getattr_default (o : snap) (a : string) (d : value) : value :=
  default d (o !! a).
Definition hasattr (o : snap) (a : string) : bool := bool_decide (is_Some (o !! a)).

(** [x or d] *)
Definition py_or (x d : value) : value := if truthy x then x else d.

(** The operand of [>] and of [round] must be a number. *)
Definition as_num (v : value) : result Q :=
  match v with
  | VNum q => Ret q
  | _ => Exc (Raise "TypeError")
  end.

Section FetchSnapshots.

(** Float division and [round(x, 2)]. *)
Variable fdiv : Q → Q → Q.
Variable round2 : Q → Q.

(** Lines 138-150: the volume-weighted average price. *)
Definition vwap_of (price volume total_amount avg_price : value) : result value :=
  a ← as_num avg_price;
  if num_gt a 0 then Ret avg_price
  else
    v ← as_num volume;
    if num_gt v 0 then
      t ← as_num total_amount;
      if num_gt t 0 then Ret (VNum (fdiv t v)) else Ret price
    else Ret price.

(** Lines 138-169: the dictionary [data] built from one snapshot. *)
Definition make_data (now_str : string) (sid : string) (c : contract) (s : snap)
  : result (gmap string value) :=
  price ← getattr s "close";
  volume ← getattr s "total_volume";
  let total_amount := py_or (getattr_default s "total_amount" (VNum 0)) (VNum 0) in
  let avg_price := py_or (getattr_default s "average_price" (VNum 0)) (VNum 0) in
  vwap ← vwap_of price volume total_amount avg_price;
  let change_price := getattr_default s "change_price" (VNum 0) in
  change_rate ← getattr s "change_rate";
  let change_percent := match change_rate with VNone => VNum 0 | v => v end in
  let volume_field := getattr_default s "volume" (VNum 0) in
  high ← getattr s "high";
  low ← getattr s "low";
  open ← getattr s "open";
  let buy_price := getattr_default s "buy_price" (VNum 0) in
  let sell_price := getattr_default s "sell_price" (VNum 0) in
  vw ← as_num vwap;
  Ret (list_to_map
         [("stock_id", VStr sid); ("stock_name", VStr (name c));
          ("price", price); ("change_price", change_price);
          ("change_percent", change_percent); ("volume", volume_field);
          ("total_volume", volume); ("amount", total_amount);
          ("high", high); ("low", low); ("open", open); ("close", price);
          ("buy_price", buy_price); ("sell_price", sell_price);
          ("vwap", VNum (round2 vw)); ("update_time", VStr now_str)]).

(** Lines 118-125: contract resolution, one symbol at a time; a symbol
    whose lookup raises or is falsy is passed over. *)
Fixpoint resolve (a : Api) (stock_ids : list string) : list contract * list string :=
  match stock_ids with
  | [] => ([], [])
  | sid :: rest =>
      let '(contracts, valid_ids) := resolve a rest in
      match Stocks a sid with
      | LookupOk c => (c :: contracts, sid :: valid_ids)
      | _ => (contracts, valid_ids)
      end
  end.

(** The symbols whose lookup gives a contract. *)
Definition resolved (o : lookup_outcome) : bool :=
  match o with LookupOk _ => true | _ => false end.
Definition resolvable (a : Api) (sid : string) : Prop := resolved (Stocks a sid) = true.

#[export] Instance resolvable_dec a sid : Decision (resolvable a sid) :=
  bool_eq_dec (resolved (Stocks a sid)) true.

(** Lines 134-176: the loop over [enumerate(snapshots)], from index [i]. *)
Fixpoint store_snapshots (now : Z) (now_str : string)
         (contracts : list contract) (valid_ids : list string)
         (results : loc) (i : nat) (snaps : list snap) : M unit :=
  match snaps with
  | [] => mret tt
  | s :: rest =>
      sid ← index valid_ids i;
      c ← index contracts i;
      data ← lift (make_data now_str sid c s);
      d ← new (Snapshot data);
      _ ← setitem results sid d;
      _ ← (λ '(h, w), (Ret tt, (mutate (cache w) (SetEntry sid d) h, set_last_update now w)));
      store_snapshots now now_str contracts valid_ids results (S i) rest
  end.

(** Lines 116-178: the body of the [try] block. *)
Definition fetch_body (now : Z) (now_str : string) (a : Api) (stock_ids : list string)
  : M loc :=
  let '(contracts, valid_ids) := resolve a stock_ids in
  match contracts with
  | [] => new (Table ∅)
  | _ =>
      snaps ← lift (snapshots a contracts);
      results ← new (Table ∅);
      _ ← store_snapshots now now_str contracts valid_ids results 0 snaps;
      mret results
  end.

(** [fetch_snapshots(stock_ids)] *)
Definition fetch_snapshots (now : Z) (now_str : string) (stock_ids : list string) : M loc :=
  λ '(h, w),
  match is_connected w, api w with
  | true, Some a =>
      try_except (fetch_body now now_str a stock_ids) (λ _, new (Table ∅)) (h, w)
  | _, _ => new (Table ∅) (h, w)
  end.

End FetchSnapshots.

(** *** Reading the cache *)

(** [get_cache()]: [dict(self.cache)] *)
Definition get_cache : M loc := λ '(h, w),
  match table_at h (cache w) with
  | Some t => new (Table t) (h, w)
  | None => raise "TypeError" (h, w)
  end.

(** [get_stock_cache(stock_id)]: [self.cache.get(stock_id)] *)
Definition get_stock_cache (stock_id : string) : M (option loc) := λ '(h, w),
  match table_at h (cache w) with
  | Some t => (Ret (t !! stock_id), (h, w))
  | None => raise "TypeError" (h, w)
  end.

(** What the route handlers read out of the two calls: every cached symbol
    with its fields, and the fields of one symbol. *)
Definition read_all (st : heap * worker) : option (gmap string (gmap string value)) :=
  match get_cache st with
  | (Ret l, (h', _)) => contents h' <$> table_at h' l
  | _ => None
  end.

Definition read_one (stock_id : string) (st : heap * worker) : option (gmap string value) :=
  match get_stock_cache stock_id st with
  | (Ret (Some r), (h', _)) => snapshot_at h' r
  | _ => None
  end.

(** A computation that leaves the session fields of the worker alone,
    however it ends. *)
Definition keeps_session {A} (m : M A) : Prop :=
  ∀ st, is_connected (m st).2.2 = is_connected st.2 ∧
        _retry_count (m st).2.2 = _retry_count st.2.

(** The workers the program can hold: a new one, after any calls of the
    methods that write it - [connect], [disconnect], [reconnect] and
    [fetch_snapshots], the latter on whatever heap and with whatever
    arithmetic and clock.  [get_cache] and [get_stock_cache] write nothing,
    and nothing outside the class writes the session fields. *)
Inductive reachable : worker → Prop :=
  | reachable_init h : reachable (init h).1
  | reachable_call c w : reachable w → reachable (do_call c w)
  | reachable_fetch fdiv round2 now now_str stock_ids h w :
      reachable w →
      reachable (fetch_snapshots fdiv round2 now now_str stock_ids (h, w)).2.2.

(** A cache holding one quote for 2330, and a worker that owns it. *)
Definition cached_905 : heap :=
  {[ 1%positive := Table {[ "2330" := 2%positive ]};
     2%positive := Snapshot {[ "price" := VNum 905 ]} ]}.
Definition worker_1 : worker := mkWorker None false 1%positive None ∅ 0.

(** A source that knows 2330 only and quotes it at 898, one whose
    [snapshots] call times out, and workers connected to them. *)
Definition snap_898 : snap :=
  list_to_map [("close", VNum 898); ("total_volume", VNum 1000); ("change_rate", VNone);
               ("high", VNum 906); ("low", VNum 897); ("open", VNum 905)].
Definition only_2330 (sid : string) : lookup_outcome :=
  if String.eqb sid "2330" then LookupOk (mkContract "TSMC") else LookupRaises.
Definition source_898 : Api := mkApi only_2330 (λ cs, Ret ((λ _, snap_898) <$> cs)).
Definition source_down : Api := mkApi only_2330 (λ _, Exc (Raise "timeout")).
Definition worker_898 : worker := mkWorker (Some source_898) true 1%positive None ∅ 0.
Definition worker_down : worker := mkWorker (Some source_down) true 1%positive None ∅ 0.

(** *** Trading hours *)

(** config.py *)
Definition TRADING_SESSIONS : list (string * (string * string)) :=
  [("pre_market", ("08:30", "09:00"));
   ("market", ("09:00", "13:30"));
   ("after_hours", ("13:40", "14:30"))].

(** [datetime.time]: a time of day. *)
Record time : Type := mkTime {
  hour : Z;
  minute : Z;
  second : Z;
  microsecond : Z
}.

(** [dt_time(h, m)]: the constructor checks its ranges. *)
Definition dt_time (h m : Z) : result time :=
  if (0 <=? h) && (h <? 24) && (0 <=? m) && (m <? 60)
  then Ret (mkTime h m 0 0)
  else Exc (Raise "ValueError").

(** [a <= b] on times compares (hour, minute, second, microsecond). *)
Definition time_le (a b : time) : bool :=
  if hour a <? hour b then true
  else if hour b <? hour a then false
  else if minute a <? minute b then true
  else if minute b <? minute a then false
  else if second a <? second b then true
  else if second b <? second a then false
  else microsecond a <=? microsecond b.

(** [s.split(":")] *)
Fixpoint split (sep : ascii) (s : string) : list string :=
  match s with
  | EmptyString => [""]
  | String c rest =>
      if Ascii.eqb c sep then "" :: split sep rest
      else
        match split sep rest with
        | piece :: pieces => String c piece :: pieces
        | [] => [String c ""]
        end
  end.

Definition digit_of (c : ascii) : option Z :=
  let n := Z.of_nat (nat_of_ascii c) in
  if (48 <=? n) && (n <=? 57) then Some (n - 48) else None.

Fixpoint int_digits (s : string) (acc : Z) : option Z :=
  match s with
  | EmptyString => Some acc
  | String c rest =>
      match digit_of c with
      | Some d => int_digits rest (10 * acc + d)
      | None => None
      end
  end.

(** [int(s)] on a string of decimal digits, as the configuration writes
    them; any other string is taken to raise [ValueError]. *)
Definition int (s : string) : result Z :=
  match s with
  | EmptyString => Exc (Raise "ValueError")
  | _ =>
      match int_digits s 0 with
      | Some n => Ret n
      | None => Exc (Raise "ValueError")
      end
  end.

(** [h, m = map(int, s.split(":"))] *)
Definition hour_minute (s : string) : result (Z * Z) :=
  match split ":"%char s with
  | [a; b] => h ← int a; m ← int b; Ret (h, m)
  | _ => Exc (Raise "ValueError")
  end.

(** [dt_time(h1, m1) <= now <= dt_time(h2, m2)]: the right-hand time is
    only built when the left comparison holds. *)
Definition in_session (now : time) (start_str end_str : string) : result bool :=
  '(h1, m1) ← hour_minute start_str;
  '(h2, m2) ← hour_minute end_str;
  t1 ← dt_time h1 m1;
  if time_le t1 now then t2 ← dt_time h2 m2; Ret (time_le now t2)
  else Ret false.

(** The loop shared by [is_trading_time] and [get_session_name]: the name
    of the first session that holds [now]. *)
Fixpoint first_session (sessions : list (string * (string * string))) (now : time)
  : result (option string) :=
  match sessions with
  | [] => Ret None
  | (session_name, (start_str, end_str)) :: rest =>
      inside ← in_session now start_str end_str;
      if inside : bool then Ret (Some session_name) else first_session rest now
  end.

(** [is_trading_time()], for the session table and the wall clock it reads. *)
Definition is_trading_time (sessions : list (string * (string * string))) (now : time)
  : result bool :=
  found ← first_session sessions now; Ret (bool_decide (is_Some found)).

(** [get_session_name()] *)
Definition get_session_name (sessions : list (string * (string * string))) (now : time)
  : result string :=
  found ← first_session sessions now; Ret (default "closed" found).

(** The two times a session entry denotes, when both can be built. *)
Definition session_bounds (start_str end_str : string) : result (time * time) :=
  '(h1, m1) ← hour_minute start_str;
  '(h2, m2) ← hour_minute end_str;
  t1 ← dt_time h1 m1;
  t2 ← dt_time h2 m2;
  Ret (t1, t2).

(** [a < b] on times. *)
Definition time_lt (a b : time) : bool := negb (time_le b a).

Abbreviation session := (string * (string * string))%type.

Definition well_formed (w : session) : Prop :=
  ∃ t1 t2, session_bounds w.2.1 w.2.2 = Ret (t1, t2).

(** [start <= now <= end] and [start <= now < end] for a session entry. *)
Definition within_closed (now : time) (w : session) : Prop :=
  ∃ t1 t2, session_bounds w.2.1 w.2.2 = Ret (t1, t2) ∧
           time_le t1 now = true ∧ time_le now t2 = true.

Definition within_half_open (now : time) (w : session) : Prop :=
  ∃ t1 t2, session_bounds w.2.1 w.2.2 = Ret (t1, t2) ∧
           time_le t1 now = true ∧ time_lt now t2 = true.

End ShioajiWorker.

(** ** workers/institutional_worker.py and workers/ai_analyzer.py *)

Module Jobs.

(** *** [datetime.date] *)

Record date : Type := mkDate {
  year : Z;
  month : Z;
  day : Z
}.

Definition _is_leap (y : Z) : bool :=
  (y mod 4 =? 0) && (negb (y mod 100 =? 0) || (y mod 400 =? 0)).

Definition _days_before_year (y : Z) : Z :=
  let y := y - 1 in y * 365 + y / 4 - y / 100 + y / 400.

Definition _DAYS_BEFORE_MONTH : list Z :=
  [-1; 0; 31; 59; 90; 120; 151; 181; 212; 243; 273; 304; 334].

Definition _days_before_month (y m : Z) : Z :=
  nth (Z.to_nat m) _DAYS_BEFORE_MONTH 0 + (if (2 <? m) && _is_leap y then 1 else 0).

Definition toordinal (d : date) : Z :=
  _days_before_year (year d) + _days_before_month (year d) (month d) + day d.

(** [d.weekday()]: Monday is 0, Sunday is 6. *)
Definition weekday (d : date) : Z := (toordinal d + 6) mod 7.

Definition digit_char (n : Z) : ascii := ascii_of_nat (Z.to_nat (48 + n mod 10)).

(** [d.isoformat()]: ["%04d-%02d-%02d"] *)
Definition isoformat (d : date) : string :=
  String (digit_char (year d / 1000)) (String (digit_char (year d / 100))
  (String (digit_char (year d / 10)) (String (digit_char (year d))
  (String "-"%char (String (digit_char (month d / 10)) (String (digit_char (month d))
  (String "-"%char (String (digit_char (day d / 10)) (String (digit_char (day d)) ""))))))))).

(** What a job does to the outside world. *)
Inductive job_effect : Type :=
  | FetchMarket (date_str : option string)
  | FetchStock (date_str : option string)
  | GenerateReview (date_str : string).

(** *** InstitutionalWorker *)

Record InstitutionalWorker : Type := mkInstitutional {
  last_fetch_date : option string;
  last_fetch_status : string
}.

(** [__init__] *)
Definition institutional_init : InstitutionalWorker := mkInstitutional None "idle".

Definition error_status (e : exn) : string := "error: " +:+ exn_message e.

Section Institutional.

(** What [fetch_market_institutional] and [fetch_stock_institutional] hand back. *)
Variables Market Stocks : Type.

(** [scheduled_fetch()], for the date it reads and the outcome of the two
    fetch calls: the worker afterwards, the calls made, and how the
    function itself ends. *)
Definition scheduled_fetch (today : date)
           (market : result Market) (stocks : result Stocks)
           (w : InstitutionalWorker)
  : InstitutionalWorker * list job_effect * result unit :=
  if 5 <=? weekday today then (w, [], Ret tt)
  else if bool_decide (last_fetch_date w = Some (isoformat today)) then (w, [], Ret tt)
  else
    let w1 := mkInstitutional (last_fetch_date w) "fetching" in
    match market with
    | Exc e =>
        (mkInstitutional (last_fetch_date w1) (error_status e), [FetchMarket None], Ret tt)
    | Ret _ =>
        match stocks with
        | Exc e =>
            (mkInstitutional (last_fetch_date w1) (error_status e),
             [FetchMarket None; FetchStock None], Ret tt)
        | Ret _ =>
            (mkInstitutional (Some (isoformat today)) "success",
             [FetchMarket None; FetchStock None], Ret tt)
        end
    end.

(** The dictionary [manual_fetch] returns. *)
Inductive manual_reply : Type :=
  | Fetched (market : Market) (stocks : Stocks)
  | Failed (error : string).

(** [manual_fetch(date_str)] *)
Definition manual_fetch (date_str : option string)
           (market : result Market) (stocks : result Stocks)
           (w : InstitutionalWorker)
  : InstitutionalWorker * list job_effect * result manual_reply :=
  let w1 := mkInstitutional (last_fetch_date w) "fetching" in
  match market with
  | Exc e =>
      (mkInstitutional (last_fetch_date w1) (error_status e),
       [FetchMarket date_str], Ret (Failed (exn_message e)))
  | Ret m =>
      match stocks with
      | Exc e =>
          (mkInstitutional (last_fetch_date w1) (error_status e),
           [FetchMarket date_str; FetchStock date_str], Ret (Failed (exn_message e)))
      | Ret s =>
          (mkInstitutional (last_fetch_date w1) "success",
           [FetchMarket date_str; FetchStock date_str], Ret (Fetched m s))
      end
  end.

End Institutional.

(** *** AIAnalyzer *)

(** The analyzer keeps the date of its last review and nothing else about
    a run. *)
Record AIAnalyzer : Type := mkAnalyzer {
  last_review_date : option string
}.

(** Lines 183-184: [if not date_str: date_str = date.today().isoformat()];
    None and the empty string are the falsy arguments. *)
Definition date_or_today (date_str : option string) (today : date) : string :=
  match date_str with
  | None => isoformat today
  | Some s => if String.eqb s "" then isoformat today else s
  end.

(** [generate_daily_review(date_str)], for the date it reads and the
    outcome of collecting, generating and saving the review text. *)
Definition generate_daily_review (date_str : option string) (today : date)
           (review : result string) (a : AIAnalyzer)
  : AIAnalyzer * list job_effect * result string :=
  let date_str := date_or_today date_str today in
  match review with
  | Exc e => (a, [GenerateReview date_str], Exc e)
  | Ret review_text => (mkAnalyzer (Some date_str), [GenerateReview date_str], Ret review_text)
  end.

(** [scheduled_daily_review()]; [today] is the date the guard reads and
    [review_day] the one [generate_daily_review] reads after it. *)
Definition scheduled_daily_review (today review_day : date)
           (review : result string) (a : AIAnalyzer)
  : AIAnalyzer * list job_effect * result unit :=
  if 5 <=? weekday today then (a, [], Ret tt)
  else if bool_decide (last_review_date a = Some (isoformat today)) then (a, [], Ret tt)
  else
    match generate_daily_review None review_day review a with
    | (a', fx, Ret _) => (a', fx, Ret tt)
    | (a', fx, Exc _) => (a', fx, Ret tt)
    end.

(** The outcome of the job body of [scheduled_fetch] and [manual_fetch]:
    the first exception of the two fetch calls, if any. *)
Definition body_outcome {Market Stocks} (market : result Market) (stocks : result Stocks)
  : result unit :=
  match market, stocks with
  | Exc e, _ => Exc e
  | Ret _, Exc e => Exc e
  | Ret _, Ret _ => Ret tt
  end.

(** The fetch calls that body makes: the second only if the first returns. *)
Definition body_calls {Market} (date_str : option string) (market : result Market)
  : list job_effect :=
  match market with
  | Ret _ => [FetchMarket date_str; FetchStock date_str]
  | Exc _ => [FetchMarket date_str]
  end.

(** A Saturday and the Monday after it. *)
Definition saturday : date := mkDate 2024 6 15.
Definition monday : date := mkDate 2024 6 17.

End Jobs.

(** ** The alert table: adding and deleting alerts *)

Module AlertManagerMore.
Import AlertManager.

(** [add_alert(stock_id, stock_name, alert_type, target_price)]:
    [connected] is what [sqlite3.connect] does, which stands before the
    [try], and [inserted] what the INSERT and its commit do, the rowid the
    database assigns or an exception; the new row takes the column
    defaults. *)
Definition add_alert (connected : result unit) (inserted : result Z) (now : Z)
           (stock_id stock_name alert_type : string) (target_price : Q) (s : store)
  : store * result bool :=
  match connected with
  | Exc e => (s, Exc e)
  | Ret _ =>
      match inserted with
      | Ret rowid =>
          (s ++ [mkAlert rowid stock_id stock_name alert_type target_price 0 None now],
           Ret true)
      | Exc _ => (s, Ret false)
      end
  end.

(** [delete_alert(alert_id)]: [DELETE FROM stock_alerts WHERE id = ?]; there
    is no [except] clause, an exception of the database leaves the
    function. *)
Definition delete_alert (deleted : result unit) (alert_id : Z) (s : store)
  : store * result bool :=
  match deleted with
  | Ret _ => (filter (λ r, id r ≠ alert_id) s, Ret true)
  | Exc e => (s, Exc e)
  end.

(** What the database does during one [check_alerts] call: the read of
    [get_active_alerts] (its connect and SELECT), the [sqlite3.connect] of
    line 91, the UPDATE for the row at each position of the list that was
    read, and the commit.  None of them stands under an [except]. *)
Record database : Type := mkDatabase {
  db_select : result unit;
  db_connect : result unit;
  db_update : nat → result unit;
  db_commit : result unit
}.

(** A database that does as it is asked. *)
Definition db_ok : database := mkDatabase (Ret tt) (Ret tt) (λ _, Ret tt) (Ret tt).

(** A database whose commit fails. *)
Definition db_commit_fails : database :=
  mkDatabase (Ret tt) (Ret tt) (λ _, Ret tt) (Exc (Raise "disk I/O error")).

(** The loop of [check_alerts] from position [k] of the list it read, with
    the outcome of each UPDATE. *)
Fixpoint scan_db (d : database) (now : Z) (qs : quotes) (active : list alert_row)
         (k : nat) (s : store) (newly_triggered : list trigger_event)
  : result (store * list trigger_event) :=
  match active with
  | [] => Ret (s, newly_triggered)
  | a :: rest =>
      match evaluate qs a with
      | Skip | Quiet => scan_db d now qs rest (S k) s newly_triggered
      | Fire p =>
          match db_update d k with
          | Exc e => Exc e
          | Ret _ =>
              scan_db d now qs rest (S k) (mark_triggered now (id a) s)
                      (newly_triggered ++ [alert_msg now a p])
          end
      | TypeError => Exc (Raise "'<=' not supported")
      end
  end.

(** [check_alerts(quotes)] on a database that can fail.  Whatever raises,
    nothing has been committed and nothing is queued. *)
Definition check_alerts_db (d : database) (now : Z) (qs : quotes) (m : manager)
  : manager * result (list trigger_event) :=
  match db_select d with
  | Exc e => (m, Exc e)
  | Ret _ =>
      let active_alerts := get_active_alerts (db m) in
      match active_alerts with
      | [] => (m, Ret [])
      | _ =>
          match db_connect d with
          | Exc e => (m, Exc e)
          | Ret _ =>
              match scan_db d now qs active_alerts 0 (db m) [] with
              | Exc e => (m, Exc e)
              | Ret (s', newly_triggered) =>
                  match db_commit d with
                  | Exc e => (m, Exc e)
                  | Ret _ =>
                      let q := match newly_triggered with
                               | [] => triggered_alerts m
                               | _ => keep_last 50 (triggered_alerts m ++ newly_triggered)
                               end in
                      (mkManager s' q, Ret newly_triggered)
                  end
              end
          end
      end
  end.

(** A quote map whose price for 2330 is not a number. *)
Definition quotes_bad_price : quotes := {[ "2330" := {[ "price" := VStr "n/a" ]} ]}.

End AlertManagerMore.

(** ** The session: time slept *)

Module SessionMore.
Import ShioajiWorker.

(** The seconds slept in all. *)
Definition total_sleep (fx : list effect) : Z := foldr Z.add 0 (sleeps fx).

End SessionMore.

(** ** The quote cache across a fetch *)

Module CacheMore.
Import ShioajiWorker.

(** The cache is a symbol table whose entries all refer to quotes. *)
Definition cache_ok (h : heap) (w : worker) : Prop :=
  ∃ t, table_at h (cache w) = Some t ∧
       ∀ sid r, t !! sid = Some r → is_Some (snapshot_at h r).

(** The fields of the worker that fetching leaves alone. *)
Definition same_session (w w' : worker) : Prop :=
  api w' = api w ∧ is_connected w' = is_connected w ∧ cache w' = cache w ∧
  subscribed_stocks w' = subscribed_stocks w ∧ _retry_count w' = _retry_count w.

(** Where the loop of [fetch_snapshots] stands: [h1], [w0] and [t0] are
    the heap, the worker and the cache table it started from, [tr] and
    [tc] the tables now at [results] and at the cache. *)
Definition loop_inv (now : Z) (h1 : heap) (w0 : worker) (t0 : gmap string loc)
           (results : loc) (valid_ids : list string)
           (h : heap) (w : worker) (tr tc : gmap string loc) : Prop :=
  table_at h results = Some tr ∧ table_at h (cache w0) = Some tc ∧
  same_session w0 w ∧
  dom h1 ⊆ dom h ∧
  (∀ l, l ∈ dom h1 → l ≠ cache w0 → l ≠ results → h !! l = h1 !! l) ∧
  (∀ sid, sid ∉ dom tr → tc !! sid = t0 !! sid) ∧
  dom tr ⊆ list_to_set valid_ids ∧
  (∀ sid d, tr !! sid = Some d →
     tc !! sid = Some d ∧ (d ∉ dom h1) ∧
     ∃ data, h !! d = Some (Snapshot data) ∧ data !! "stock_id" = Some (VStr sid)) ∧
  ((tr = ∅ ∧ last_update w = last_update w0) ∨ last_update w = Some now).

(** What a [fetch_snapshots(stock_ids)] call that started from [h], [w]
    and the cache table [t0] leaves of them in [h'], [w'], with [tc] the
    cache table afterwards. *)
Definition fetch_frame (stock_ids : list string) (h : heap) (w : worker)
           (t0 : gmap string loc) (h' : heap) (w' : worker) (tc : gmap string loc) : Prop :=
  table_at h' (cache w) = Some tc ∧ same_session w w' ∧
  dom h ⊆ dom h' ∧
  (∀ l, l ∈ dom h → l ≠ cache w → h' !! l = h !! l) ∧
  (∀ sid, sid ∉ stock_ids → tc !! sid = t0 !! sid) ∧
  dom t0 ⊆ dom tc ∧
  (∀ sid d, tc !! sid = Some d →
     t0 !! sid = Some d ∨
     ((d ∉ dom h) ∧ ∃ data, snapshot_at h' d = Some data ∧
                            data !! "stock_id" = Some (VStr sid))).

(** What it returns: a new table [tr] at [r] whose quotes are new objects,
    each the one the cache now holds for its symbol. *)
Definition fetch_returns (now : Z) (h : heap) (w : worker) (r : loc)
           (h' : heap) (w' : worker) (tr tc : gmap string loc) : Prop :=
  table_at h' r = Some tr ∧ (r ∉ dom h) ∧
  (∀ sid d, tr !! sid = Some d →
     tc !! sid = Some d ∧ (d ∉ dom h) ∧
     ∃ data, snapshot_at h' d = Some data ∧ data !! "stock_id" = Some (VStr sid)) ∧
  (tr ≠ ∅ → last_update w' = Some now).

End CacheMore.

(** ** The polling loop of the quote worker *)

Module PollingLoop.
Import ShioajiWorker.

(** What the loop does to the outside world: what the session manager does
    and the sleeps, reading the watchlist, a call of [self.fetch_snapshots]
    with the keys of the dictionary it returned (or nothing if it raised),
    and a [save_snapshots_to_db] pass with the symbols it saves. *)
Inductive loop_effect : Type :=
  | Session (e : effect)
  | GetWatchlist
  | Fetch (stock_ids : list string) (returned : option (gset string))
  | SaveBatch (symbols : gset string).

(** What one pass of the loop reads from outside: the wall clock, what a
    connection attempt would meet in the body and in the [except] handler,
    the [stock_id] column of [get_watchlist()], and the function bound to
    [self.fetch_snapshots] at that time. *)
Record tick : Type := mkTick {
  tick_time : time;
  tick_connect : connect_outcome;
  tick_watchlist : result (list string);
  tick_fetch : list string → M loc;
  tick_recover : connect_outcome
}.

(** [save_snapshots_to_db(results)]: [save_snapshot] is called for the
    entries whose quote has a [stock_name]; a failing save is passed over. *)
Definition save_snapshots_to_db (h : heap) (results : gmap string loc) : gset string :=
  dom (filter (λ entry, is_Some (snapshot_at h entry.2 ≫= (.!! "stock_name"))) results).

(** Lines 261-266: the [except] handler. *)
Definition recover (o : connect_outcome) (st : heap * worker) (save_counter : Z)
           (fx : list loop_effect) : (heap * worker) * Z * list loop_effect :=
  let '(w', fx', ok) := reconnect o st.2 in
  ((st.1, w'), save_counter,
   fx ++ (Session <$> fx') ++ (if ok then [] else [Session (Sleep 120)])).

(** Lines 229-266: one pass of the [while] loop of [_worker_loop]. *)
Definition iteration (sessions : list (string * (string * string))) (tk : tick)
           (st : heap * worker) (save_counter : Z)
  : (heap * worker) * Z * list loop_effect :=
  match is_trading_time sessions (tick_time tk) with
  | Exc _ => recover (tick_recover tk) st save_counter []
  | Ret false => (st, save_counter, [Session (Sleep 60)])
  | Ret true =>
      let '(w1, fx1, ok) :=
        if is_connected st.2 then (st.2, [], true) else reconnect (tick_connect tk) st.2 in
      let fx1 := Session <$> fx1 in
      if negb ok then ((st.1, w1), save_counter, fx1 ++ [Session (Sleep 60)])
      else
        match tick_watchlist tk with
        | Exc _ => recover (tick_recover tk) (st.1, w1) save_counter (fx1 ++ [GetWatchlist])
        | Ret [] => ((st.1, w1), save_counter, fx1 ++ [GetWatchlist; Session (Sleep 30)])
        | Ret stock_ids =>
            match tick_fetch tk stock_ids (st.1, w1) with
            | (Exc _, st2) =>
                recover (tick_recover tk) st2 save_counter
                        (fx1 ++ [GetWatchlist; Fetch stock_ids None])
            | (Ret r, st2) =>
                let results := default ∅ (table_at st2.1 r) in
                let fx2 := fx1 ++ [GetWatchlist; Fetch stock_ids (Some (dom results))] in
                if decide (results = ∅)
                then (st2, save_counter, fx2 ++ [Session (Sleep 15)])
                else if 4 <=? save_counter + 1
                then (st2, 0, fx2 ++ [SaveBatch (save_snapshots_to_db st2.1 results);
                                     Session (Sleep 15)])
                else (st2, save_counter + 1, fx2 ++ [Session (Sleep 15)])
            end
        end
  end.

(** [_worker_loop()]: [save_counter] starts at 0 and the passes follow one
    another while [is_running] holds. *)
Fixpoint passes (sessions : list (string * (string * string))) (ticks : list tick)
         (st : heap * worker) (save_counter : Z)
  : (heap * worker) * Z * list loop_effect :=
  match ticks with
  | [] => (st, save_counter, [])
  | tk :: rest =>
      let '(st1, c1, fx1) := iteration sessions tk st save_counter in
      let '(st2, c2, fx2) := passes sessions rest st1 c1 in
      (st2, c2, fx1 ++ fx2)
  end.

Definition _worker_loop (sessions : list (string * (string * string))) (ticks : list tick)
           (st : heap * worker) : (heap * worker) * list loop_effect :=
  let '(st', _, fx) := passes sessions ticks st 0 in (st', fx).

(** The seconds slept, the save passes and the fetches that returned
    something, among the effects of the loop. *)
Definition slept (fx : list loop_effect) : Z :=
  foldr Z.add 0 (omap (λ e, match e with Session (Sleep n) => Some n | _ => None end) fx).
Definition saves (fx : list loop_effect) : list (gset string) :=
  omap (λ e, match e with SaveBatch s => Some s | _ => None end) fx.
Definition full_fetches (fx : list loop_effect) : list (gset string) :=
  omap (λ e, match e with
             | Fetch _ (Some keys) => if decide (keys = ∅) then None else Some keys
             | _ => None
             end) fx.

(** The same reads with another fetch function. *)
Definition with_fetch (f : list string → M loc) (tk : tick) : tick :=
  mkTick (tick_time tk) (tick_connect tk) (tick_watchlist tk) f (tick_recover tk).

(** A pass at 03:00 and a pass at 10:00 with 2330 on the watchlist and the
    plain [fetch_snapshots] bound. *)
Definition night_tick : tick :=
  mkTick (mkTime 3 0 0 0) CtorRaises (Ret ["2330"])
         (fetch_snapshots Qdiv (λ q, q) 7 "03:00:00") CtorRaises.
Definition morning_tick : tick :=
  mkTick (mkTime 10 0 0 0) CtorRaises (Ret ["2330"])
         (fetch_snapshots Qdiv (λ q, q) 7 "10:00:00") CtorRaises.

End PollingLoop.

(** ** The jobs: dates and the calls of the model *)

Module JobsMore.
Import Jobs.

(** The ranges [datetime.date] keeps its fields in. *)
Definition valid_date (d : date) : Prop :=
  1 ≤ year d ≤ 9999 ∧ 1 ≤ month d ≤ 12 ∧ 1 ≤ day d ≤ 31.

(** The text [generate] returns when its last attempt fails. *)
Definition unavailable (e : exn) : string :=
  "[AI 分析暫時無法使用: " +:+ exn_message e +:+ "]".

(** The [for attempt in range(max_retries + 1)] loop of [generate], with
    [todo] passes left: what it returns ([None] when it runs off the end)
    and how many times it has called the model.  [responses] gives the
    outcome of [generate_content(prompt)] and [.text] per attempt. *)
Fixpoint attempts (responses : nat → result string) (max_retries : Z)
         (todo : nat) (attempt : Z) : option string * nat :=
  match todo with
  | O => (None, O)
  | S todo' =>
      match responses (Z.to_nat attempt) with
      | Ret text => (Some text, 1%nat)
      | Exc e =>
          if attempt =? max_retries then (Some (unavailable e), 1%nat)
          else
            let '(r, calls) := attempts responses max_retries todo' (attempt + 1) in
            (r, S calls)
      end
  end.

(** [generate(prompt, max_retries)]: the value returned or the exception
    raised, and the number of calls of the model.  [model] tells whether
    [self.model] is set and [init_model] what [self.init_model()] does when
    it is not; that call is made outside the [try]. *)
Definition generate (model : bool) (init_model : result unit)
           (responses : nat → result string) (max_retries : Z)
  : result (option string) * nat :=
  let loop :=
    let '(r, calls) := attempts responses max_retries (Z.to_nat (max_retries + 1)) 0 in
    (Ret r, calls) in
  if model then loop
  else match init_model with
       | Exc e => (Exc e, O)
       | Ret _ => loop
       end.

End JobsMore.

(** * Properties

    Each theorem below carries the identifier of the statement of the
    specification it settles. *)

(** ** The alert engine *)

Module AlertManagerSpec.
Import AlertManager.

Lemma mark_row_id now i r : id (mark_row now i r) = id r.
Proof. unfold mark_row. by destruct (id r =? i). Qed.

Lemma mark_row_other now i r : id r ≠ i → mark_row now i r = r.
Proof. intros H. unfold mark_row. destruct (Z.eqb_spec (id r) i); [done | done]. Qed.

Lemma mark_row_same now i r :
  id r = i → is_triggered (mark_row now i r) = 1 ∧ triggered_at (mark_row now i r) = Some now.
Proof. intros H. unfold mark_row. rewrite (proj2 (Z.eqb_eq _ _) H). done. Qed.

Lemma ids_mark_triggered now i s : ids (mark_triggered now i s) = ids s.
Proof.
  unfold ids, mark_triggered. rewrite <- list_fmap_compose.
  apply list_fmap_ext. intros ? r _. apply mark_row_id.
Qed.

Lemma active_ids_mark_triggered now i s :
  active_ids (mark_triggered now i s) = filter (λ j, j ≠ i) (active_ids s).
Proof.
  unfold active_ids, mark_triggered. induction s as [|r s IH]; [done|].
  rewrite fmap_cons, !filter_cons.
  destruct (decide (id r = i)) as [Heq|Hne].
  - destruct (mark_row_same now i r Heq) as [Ht _].
    rewrite decide_False by (unfold is_active; lia).
    rewrite IH. destruct (decide (is_active r)); [|done].
    rewrite fmap_cons, filter_cons, decide_False by tauto. done.
  - rewrite mark_row_other by done.
    destruct (decide (is_active r)); [|done].
    rewrite !fmap_cons, filter_cons, decide_True by done. by rewrite IH.
Qed.

Lemma mark_all_cons now i js s :
  mark_all now (i :: js) s = mark_all now js (mark_triggered now i s).
Proof. reflexivity. Qed.

Lemma ids_mark_all now js s : ids (mark_all now js s) = ids s.
Proof.
  revert s. induction js as [|i js IH]; intros s; [done|].
  by rewrite mark_all_cons, IH, ids_mark_triggered.
Qed.

Lemma active_ids_mark_all now js s :
  active_ids (mark_all now js s) = filter (λ j, j ∉ js) (active_ids s).
Proof.
  revert s. induction js as [|i js IH]; intros s.
  - change (mark_all now [] s) with s. generalize (active_ids s) as l.
    induction l as [|j l IHl]; [done|].
    rewrite filter_cons_True by apply not_elem_of_nil. by rewrite <- IHl.
  - rewrite mark_all_cons, IH, active_ids_mark_triggered, list_filter_filter.
    apply list_filter_iff. intros j. rewrite not_elem_of_cons. tauto.
Qed.

Lemma mark_all_keeps now js s r : id r ∉ js → r ∈ s → r ∈ mark_all now js s.
Proof.
  revert s. induction js as [|i js IH]; intros s Hn Hr; [done|].
  rewrite mark_all_cons. apply not_elem_of_cons in Hn as [Hi Hn].
  apply IH; [done|]. unfold mark_triggered.
  apply list_elem_of_fmap. exists r. by rewrite mark_row_other.
Qed.

Lemma firing_ids now qs active i :
  i ∈ fired (firing now qs active) ↔
  ∃ a p, a ∈ active ∧ id a = i ∧ evaluate qs a = Fire p.
Proof.
  unfold fired, firing. rewrite list_elem_of_fmap. split.
  - intros (e & -> & He). apply list_elem_of_omap in He as (a & Ha & Hev).
    destruct (evaluate qs a) eqn:E; try done. inversion Hev; subst. eauto.
  - intros (a & p & Ha & <- & E). exists (alert_msg now a p). split; [done|].
    apply list_elem_of_omap. exists a. by rewrite E.
Qed.

Lemma firing_sublist now qs active :
  fired (firing now qs active) `sublist_of` (id <$> active).
Proof.
  unfold fired, firing. induction active as [|a active IH]; [done|].
  cbn. destruct (evaluate qs a); cbn; try (by apply sublist_cons).
  by apply sublist_skip.
Qed.

(** The loop fires exactly the alerts of its list whose condition holds and
    marks their rows. *)
Lemma scan_Ret now qs active s acc s' evs :
  scan now qs active s acc = Ret (s', evs) →
  evs = acc ++ firing now qs active ∧
  s' = mark_all now (fired (firing now qs active)) s.
Proof.
  revert s acc. induction active as [|a active IH]; intros s acc H.
  - cbn in H. inversion H; subst. by rewrite app_nil_r.
  - cbn in H. unfold firing; cbn. fold (firing now qs active).
    destruct (evaluate qs a) eqn:E; try done.
    + by apply IH.
    + by apply IH.
    + apply IH in H as [-> ->]. cbn. by rewrite <- app_assoc.
Qed.

Lemma fmap_NoDup_inj {A B} (f : A → B) (l : list A) x y :
  NoDup (f <$> l) → x ∈ l → y ∈ l → f x = f y → x = y.
Proof.
  induction l as [|z l IH]; intros Hnd Hx Hy Hf; [by apply elem_of_nil in Hx|].
  rewrite fmap_cons in Hnd. apply NoDup_cons in Hnd as [Hz Hnd].
  apply elem_of_cons in Hx as [->|Hx]; apply elem_of_cons in Hy as [->|Hy]; try done.
  - exfalso. apply Hz. rewrite Hf. apply list_elem_of_fmap. eauto.
  - exfalso. apply Hz. rewrite <- Hf. apply list_elem_of_fmap. eauto.
  - by apply IH.
Qed.

Lemma active_ids_NoDup s : NoDup (ids s) → NoDup (active_ids s).
Proof.
  intros H. eapply sublist_NoDup; [exact H|].
  unfold active_ids, ids. apply fmap_sublist, sublist_filter.
Qed.

Lemma get_active_alerts_perm s : get_active_alerts s ≡ₚ filter is_active s.
Proof. apply merge_sort_Permutation. Qed.

Lemma get_active_alerts_elem s a : a ∈ get_active_alerts s ↔ is_active a ∧ a ∈ s.
Proof. rewrite get_active_alerts_perm. apply list_elem_of_filter. Qed.

Lemma check_alerts_cases now qs m :
  (∃ e, check_alerts now qs m = (m, Exc e)) ∨
  (∃ q, check_alerts now qs m =
          (mkManager (mark_all now (fired (fires now qs (db m))) (db m)) q,
           Ret (fires now qs (db m)))).
Proof.
  unfold check_alerts, fires. destruct m as [s q0]; cbn [db triggered_alerts].
  destruct (get_active_alerts s) as [|a l] eqn:E.
  - right. by exists q0.
  - destruct (scan now qs (a :: l) s []) as [[s' evs]|e] eqn:Hs.
    + apply scan_Ret in Hs as [-> ->]. right. eauto.
    + left. eauto.
Qed.

Lemma fires_NoDup now qs s : NoDup (ids s) → NoDup (fired (fires now qs s)).
Proof.
  intros H. eapply sublist_NoDup; [|apply firing_sublist].
  rewrite get_active_alerts_perm. by apply active_ids_NoDup.
Qed.

Lemma fires_active now qs s i : i ∈ fired (fires now qs s) → i ∈ active_ids s.
Proof.
  intros H. apply firing_ids in H as (a & p & Ha & <- & _).
  apply list_elem_of_fmap. exists a. split; [done|].
  apply list_elem_of_filter. by apply get_active_alerts_elem.
Qed.

(** One call: ids are kept, each fired alert was active and is fired once,
    and what is still active afterwards was active and did not fire. *)
Lemma check_alerts_inv now qs m :
  NoDup (ids (db m)) →
  ids (db (check_alerts now qs m).1) = ids (db m) ∧
  NoDup (fired (returned (check_alerts now qs m).2)) ∧
  (∀ i, i ∈ fired (returned (check_alerts now qs m).2) → i ∈ active_ids (db m)) ∧
  (∀ i, i ∈ active_ids (db (check_alerts now qs m).1) →
        i ∈ active_ids (db m) ∧ i ∉ fired (returned (check_alerts now qs m).2)).
Proof.
  intros Hnd.
  destruct (check_alerts_cases now qs m) as [[e ->]|[q ->]]; cbn [fst snd db returned].
  - split; [done|]. split; [constructor|]. split.
    + intros i H. by apply elem_of_nil in H.
    + intros i H. split; [done|]. apply not_elem_of_nil.
  - rewrite ids_mark_all, active_ids_mark_all.
    split; [done|]. split; [by apply fires_NoDup|]. split; [apply fires_active|].
    intros i H. by apply list_elem_of_filter in H as [? ?].
Qed.

Lemma run_checks_cons now qs ticks m :
  all_events ((now, qs) :: ticks) m =
  returned (check_alerts now qs m).2 ++ all_events ticks (check_alerts now qs m).1.
Proof.
  unfold all_events. cbn [run_checks]. destruct (check_alerts now qs m) as [m1 r].
  cbn [fst snd]. by destruct (run_checks ticks m1) as [m2 rs].
Qed.

Lemma run_checks_inv ticks m :
  NoDup (ids (db m)) →
  NoDup (fired (all_events ticks m)) ∧
  (∀ i, i ∈ fired (all_events ticks m) → i ∈ active_ids (db m)).
Proof.
  revert m. induction ticks as [|[now qs] ticks IH]; intros m Hnd.
  - split; [constructor|]. intros i H. by apply elem_of_nil in H.
  - rewrite run_checks_cons. unfold fired. rewrite fmap_app. fold (fired).
    destruct (check_alerts_inv now qs m Hnd) as (Hids & Hnd1 & Hact & Hrest).
    destruct (IH (check_alerts now qs m).1) as [Hnd2 Hact2]; [by rewrite Hids|].
    split.
    + apply NoDup_app. repeat split; try done.
      intros i Hi Hi2. apply Hact2, Hrest in Hi2 as [_ Hi2]. by apply Hi2.
    + intros i [Hi|Hi]%elem_of_app; [by apply Hact|].
      by apply Hact2, Hrest in Hi as [? _].
Qed.

Lemma count_fired_NoDup i evs : NoDup (fired evs) → (count_fired i evs ≤ 1)%nat.
Proof.
  unfold count_fired, fired. induction evs as [|e evs IH]; intros H; [cbn; lia|].
  rewrite fmap_cons in H. apply NoDup_cons in H as [He H].
  rewrite filter_cons. destruct (decide (ev_id e = i)) as [<-|]; [|by apply IH].
  destruct (filter (λ e0, ev_id e0 = ev_id e) evs) as [|e' l] eqn:E; [cbn; lia|].
  exfalso. apply He. assert (e' ∈ filter (λ e0, ev_id e0 = ev_id e) evs) as Hin.
  { rewrite E. apply elem_of_cons. by left. }
  apply list_elem_of_filter in Hin as [<- Hin]. apply list_elem_of_fmap. eauto.
Qed.

Lemma inactive_not_in_active_ids s r :
  NoDup (ids s) → r ∈ s → ¬ is_active r → id r ∉ active_ids s.
Proof.
  intros Hnd Hr Hna Hin. apply list_elem_of_fmap in Hin as (r' & Heq & Hr').
  apply list_elem_of_filter in Hr' as [Hact Hr'].
  apply Hna. by rewrite (fmap_NoDup_inj id s r r' Hnd Hr Hr' Heq).
Qed.

(** C1: on a table whose ids are distinct (the primary key), over any
    sequence of [check_alerts] calls every alert produces at most one
    Trigger Event and an alert that is already triggered never fires; the
    alert "above 1000" with readings 995, 1001, 1002, 999, 1003 fires once,
    at the 1001 reading, every other call returning nothing. *)
Theorem alert_triggers_at_most_once :
  (∀ ticks m i, NoDup (ids (db m)) → (count_fired i (all_events ticks m) ≤ 1)%nat) ∧
  (∀ ticks m r, NoDup (ids (db m)) → r ∈ db m → ¬ is_active r →
                count_fired (id r) (all_events ticks m) = 0%nat) ∧
  (run_checks readings (mkManager [above_1000] [])).2 =
    [[]; [mkEvent 1 "S" "" "above" 1000 1001 2]; []; []; []].
Proof.
  split; [|split].
  - intros ticks m i Hnd. apply count_fired_NoDup. by apply run_checks_inv.
  - intros ticks m r Hnd Hr Hna. unfold count_fired.
    destruct (filter _ _) as [|e l] eqn:E; [done|]. exfalso.
    assert (e ∈ filter (λ e0, ev_id e0 = id r) (all_events ticks m)) as Hin.
    { rewrite E. apply elem_of_cons. by left. }
    apply list_elem_of_filter in Hin as [Heq Hin].
    apply (inactive_not_in_active_ids (db m) r Hnd Hr Hna).
    apply (run_checks_inv ticks m Hnd). rewrite <- Heq.
    apply list_elem_of_fmap. eauto.
  - vm_compute. reflexivity.
Qed.

Lemma alert_triggers_at_most_once_witness :
  (count_fired 1 (all_events readings (mkManager [above_1000] [])) ≤ 1)%nat ∧
  count_fired 7 (all_events [(200, {[ "2330" := {[ "price" := VNum 898 ]} ]})]
                            (mkManager [fired_900] [])) = 0%nat.
Proof.
  destruct alert_triggers_at_most_once as (Hmost & Hnever & _). split.
  - apply Hmost. apply NoDup_singleton.
  - apply (Hnever _ (mkManager [fired_900] []) fired_900).
    + apply NoDup_singleton.
    + apply list_elem_of_singleton. reflexivity.
    + unfold is_active. cbn. lia.
Defined.


Lemma evaluate_TypeError qs a :
  evaluate qs a = TypeError ↔
  ∃ q v, qs !! stock_id a = Some q ∧ q !! "price" = Some v ∧ ∀ p, v ≠ VNum p.
Proof.
  unfold evaluate. destruct (qs !! stock_id a) as [q|]; [|split; [done|by intros (? & ? & ? & _)]].
  case_decide as Hq.
  { subst. split; [done|]. intros (q & v & [= <-] & Hv & _). by rewrite lookup_empty in Hv. }
  destruct (q !! "price") as [v|] eqn:Hp; cbn.
  - destruct v as [|p|t].
    + split; [|done]. intros _. exists q, VNone. done.
    + split.
      * repeat case_match; done.
      * intros (q' & v & [= <-] & Hv & Hn). rewrite Hp in Hv. injection Hv as <-.
        by destruct (Hn p).
    + split; [|done]. intros _. exists q, (VStr t). done.
  - split.
    + repeat case_match; done.
    + intros (q' & v & [= <-] & Hv & _). congruence.
Qed.

Lemma evaluate_Fire qs a p :
  evaluate qs a = Fire p ↔
  ∃ q, qs !! stock_id a = Some q ∧ q !! "price" = Some (VNum p) ∧ condition_holds a p.
Proof.
  unfold evaluate, condition_holds, num_le. split.
  - destruct (qs !! stock_id a) as [q|]; [|done]. case_decide as Hq; [done|].
    destruct (q !! "price") as [[|p'|t]|] eqn:Hp; cbn; try done.
    + destruct (Qle_bool p' 0) eqn:E0; [done|].
      assert (0 < p')%Q as Hpos.
      { apply Qnot_le_lt. intros H. apply Qle_bool_iff in H. congruence. }
      destruct (String.eqb_spec (alert_type a) "above") as [Ha|Ha];
        destruct (Qle_bool (target_price a) p') eqn:E1; cbn.
      * intros [= <-]. apply Qle_bool_iff in E1.
        exists q. split; [done|]. split; [done|]. split; [done|]. by left.
      * rewrite Ha. cbn. done.
      * destruct (String.eqb_spec (alert_type a) "below") as [Hb|Hb];
          destruct (Qle_bool p' (target_price a)) eqn:E2; cbn; try done.
        intros [= <-]. apply Qle_bool_iff in E2.
        exists q. split; [done|]. split; [done|]. split; [done|]. by right.
      * destruct (String.eqb_spec (alert_type a) "below") as [Hb|Hb];
          destruct (Qle_bool p' (target_price a)) eqn:E2; cbn; try done.
        intros [= <-]. apply Qle_bool_iff in E2.
        exists q. split; [done|]. split; [done|]. split; [done|]. by right.
  - intros (q & -> & Hp & Hpos & Hc).
    rewrite decide_False by (intros ->; by rewrite lookup_empty in Hp).
    rewrite Hp. cbn.
    assert (Qle_bool p 0 = false) as ->.
    { destruct (Qle_bool p 0) eqn:E; [|done]. apply Qle_bool_iff in E.
      by apply Qlt_not_le in Hpos. }
    destruct Hc as [[-> Hle]|[-> Hle]]; apply Qle_bool_iff in Hle; cbn; by rewrite Hle.
Qed.

Lemma evaluate_nonpositive qs a q :
  qs !! stock_id a = Some q →
  (q !! "price" = None ∨ ∃ p, q !! "price" = Some (VNum p) ∧ (p <= 0)%Q) →
  evaluate qs a = Skip.
Proof.
  intros Hq Hp. unfold evaluate. rewrite Hq. case_decide; [done|].
  destruct Hp as [->|(p & -> & Hle)]; cbn; [done|].
  unfold num_le. by rewrite (proj2 (Qle_bool_iff p 0) Hle).
Qed.

(** C9: an active alert whose quote has no price, or a price at or below
    zero, is not triggered by [check_alerts] and stays in the table as it
    was, whatever its direction and target. *)
Theorem nonpositive_price_never_triggers now qs m a q :
  NoDup (ids (db m)) → a ∈ db m → is_active a →
  qs !! stock_id a = Some q →
  (q !! "price" = None ∨ ∃ p, q !! "price" = Some (VNum p) ∧ (p <= 0)%Q) →
  (id a ∉ fired (returned (check_alerts now qs m).2)) ∧
  (a ∈ get_active_alerts (db (check_alerts now qs m).1)).
Proof.
  intros Hnd Ha Hact Hq Hp.
  pose proof (evaluate_nonpositive qs a q Hq Hp) as Hskip.
  assert (id a ∉ fired (fires now qs (db m))) as Hnf.
  { intros H. apply firing_ids in H as (a' & p & Ha' & Hid & Hev).
    apply get_active_alerts_elem in Ha' as [_ Ha'].
    rewrite (fmap_NoDup_inj id (db m) a' a Hnd Ha' Ha Hid) in Hev. congruence. }
  destruct (check_alerts_cases now qs m) as [[e ->]|[q' ->]]; cbn [fst snd db returned].
  - split; [apply not_elem_of_nil|]. by apply get_active_alerts_elem.
  - split; [done|]. apply get_active_alerts_elem. split; [done|].
    by apply mark_all_keeps.
Qed.

Lemma nonpositive_price_never_triggers_witness :
  (id below_900 ∉ fired (returned (check_alerts 1 {[ "2330" := {[ "price" := VNum 0 ]} ]}
                                               (mkManager [below_900] [])).2)) ∧
  (below_900 ∈ get_active_alerts
     (db (check_alerts 1 {[ "2330" := {[ "price" := VNum 0 ]} ]} (mkManager [below_900] [])).1)).
Proof.
  apply (nonpositive_price_never_triggers 1 _ (mkManager [below_900] []) below_900
           {[ "price" := VNum 0 ]}).
  - apply NoDup_singleton.
  - apply list_elem_of_singleton. reflexivity.
  - reflexivity.
  - reflexivity.
  - right. exists 0%Q. split; [reflexivity|]. vm_compute. discriminate.
Defined.






End AlertManagerSpec.

(** ** The session manager, the poller and the quote cache *)

Module ShioajiWorkerSpec.
Import ShioajiWorker.

(** *** Reconnection *)

Lemma disconnect_fields w :
  is_connected (disconnect w).1 = false ∧ _retry_count (disconnect w).1 = _retry_count w.
Proof. done. Qed.

Lemma sleeps_app fx1 fx2 : sleeps (fx1 ++ fx2) = sleeps fx1 ++ sleeps fx2.
Proof. apply omap_app. Qed.

Lemma logins_app fx1 fx2 : logins (fx1 ++ fx2) = (logins fx1 + logins fx2)%nat.
Proof. unfold logins. by rewrite List.filter_app, length_app. Qed.

Lemma disconnect_quiet w : sleeps (disconnect w).2 = [] ∧ logins (disconnect w).2 = 0%nat.
Proof. unfold disconnect. cbn. by destruct (_ && _). Qed.

(** One failing [reconnect()] with the counter at [k]. *)
Lemma reconnect_fails o w (k : nat) :
  _retry_count w = Z.of_nat k → fails o →
  sleeps (reconnect o w).1.2 = take 1 (drop k _retry_delays) ∧
  logins (reconnect o w).1.2 = (if decide (k < 10)%nat then
                                 match o with LoginRaises _ => 1 | _ => 0 end else 0)%nat ∧
  (reconnect o w).2 = false ∧
  is_connected (reconnect o w).1.1 = false ∧
  _retry_count (reconnect o w).1.1 = Z.of_nat (S k).
Proof.
  intros Hk Hf. unfold reconnect.
  destruct (disconnect w) as [w1 fx1] eqn:Hd.
  pose proof (disconnect_fields w) as [Hc1 Hr1]. pose proof (disconnect_quiet w) as [Hs1 Hl1].
  rewrite Hd in *. cbn [fst snd] in *.
  cbn [_retry_count set_retry_count]. rewrite Hr1, Hk.
  destruct (Z.ltb_spec _max_retry (Z.of_nat k + 1)) as [Hlt|Hge]; unfold _max_retry in *.
  - cbn [fst snd]. rewrite Hs1, Hl1, drop_ge by (cbn; lia).
    rewrite decide_False by lia. cbn. repeat split; try done. lia.
  - unfold connect. cbn [is_connected set_retry_count]. rewrite Hc1.
    rewrite decide_True by lia.
    assert (k < 10)%nat as Hk10 by lia.
    assert (sleeps [Sleep (nth (Z.to_nat (Z.of_nat k `min` (Z.of_nat (length _retry_delays) - 1)))
                          _retry_delays 0)] = take 1 (drop k _retry_delays)) as Hsleep.
    { rewrite Z.min_l by (cbn; lia). rewrite Nat2Z.id.
      do 10 (destruct k as [|k]; [reflexivity|]). lia. }
    destruct o; try done; cbn [fst snd]; rewrite ?sleeps_app, ?logins_app, Hs1, Hl1;
      change (Sleep ?d :: ?l) with ([Sleep d] ++ l); rewrite ?sleeps_app, ?logins_app, Hsleep;
      cbn; rewrite ?app_nil_r; repeat split; try done; lia.
Qed.

Lemma take_S_drop {A} (n k : nat) (l : list A) :
  take (S n) (drop k l) = take 1 (drop k l) ++ take n (drop (S k) l).
Proof.
  replace (S k) with (k + 1)%nat by lia. rewrite <- (drop_drop l 1 k).
  destruct (drop k l) as [|x l']; cbn; [by rewrite take_nil|by rewrite drop_0].
Qed.

(** Consecutive failing [reconnect()] calls with the counter at [k]. *)
Lemma reconnects_fail os : ∀ w (k : nat),
  _retry_count w = Z.of_nat k → Forall fails os →
  sleeps (reconnects os w).1.2 = take (length os) (drop k _retry_delays) ∧
  (logins (reconnects os w).1.2 ≤ length (take (length os) (drop k _retry_delays)))%nat ∧
  Forall (λ ok, ok = false) (reconnects os w).2 ∧
  _retry_count (reconnects os w).1.1 = Z.of_nat (k + length os).
Proof.
  induction os as [|o os IH]; intros w k Hk Hf.
  - cbn. rewrite Nat.add_0_r. repeat split; try done; lia.
  - apply Forall_cons in Hf as [Ho Hf].
    destruct (reconnect_fails o w k Hk Ho) as (Hs & Hl & Hok & _ & Hr).
    cbn [reconnects]. destruct (reconnect o w) as [[w1 fx1] ok]. cbn [fst snd] in *.
    destruct (IH w1 (S k) Hr Hf) as (Hs' & Hl' & Hoks & Hr').
    destruct (reconnects os w1) as [[w2 fx2] oks]. cbn [fst snd length] in *.
    rewrite sleeps_app, logins_app, take_S_drop, Hs, Hs', Hl, length_app.
    repeat split; try done.
    + case_decide as Hk10.
      * assert (length (take 1 (drop k _retry_delays)) = 1)%nat as ->.
        { rewrite length_take, length_drop. unfold _retry_delays. cbn [length]. lia. }
        destruct o; lia.
      * lia.
    + constructor; done.
    + rewrite Hr'. lia.
Qed.

(** A connected worker has a retry counter of 0, and calls keep it so. *)
Lemma connected_counter_zero calls : ∀ w0,
  (is_connected w0 = true → _retry_count w0 = 0) →
  is_connected (foldl (λ w c, do_call c w) w0 calls) = true →
  _retry_count (foldl (λ w c, do_call c w) w0 calls) = 0.
Proof.
  induction calls as [|c calls IH]; intros w0 H0; [done|]. cbn [foldl]. apply IH.
  destruct c as [o'| |o']; cbn [do_call].
  - unfold connect. destruct (is_connected w0) eqn:E; cbn [fst]; [by auto|].
    by destruct o'.
  - done.
  - unfold reconnect. destruct (disconnect w0) as [w1 fx1] eqn:Hd.
    injection Hd as <- _. cbn [_retry_count set_retry_count clear_subscribed set_connected].
    destruct (_ <? _); cbn [fst]; [done|].
    unfold connect. cbn [is_connected set_retry_count].
    by destruct o'.
Qed.

Lemma time_le_refl t : time_le t t = true.
Proof. unfold time_le. rewrite !Z.ltb_irrefl. apply Z.leb_refl. Qed.

Lemma in_session_bounds now a b t1 t2 :
  session_bounds a b = Ret (t1, t2) →
  in_session now a b = Ret (time_le t1 now && time_le now t2).
Proof.
  unfold session_bounds, in_session.
  destruct (hour_minute a) as [[h1 m1]|]; [|done]. cbn.
  destruct (hour_minute b) as [[h2 m2]|]; [|done]. cbn.
  destruct (dt_time h1 m1) as [t1'|]; [|done]. cbn.
  destruct (dt_time h2 m2) as [t2'|]; [|done]. cbn.
  intros [= -> ->]. by destruct (time_le t1 now).
Qed.

Lemma first_session_closed sessions now :
  Forall well_formed sessions →
  ∃ found, first_session sessions now = Ret found ∧
           (is_Some found ↔ Exists (within_closed now) sessions).
Proof.
  induction sessions as [|[name [a b]] sessions IH]; intros Hwf.
  - exists None. split; [done|]. rewrite Exists_nil. split; [by intros [? ?]|done].
  - apply Forall_cons in Hwf as [(t1 & t2 & Hb) Hwf]. cbn in Hb.
    destruct (IH Hwf) as (found & Hf & Hiff). cbn [first_session].
    rewrite (in_session_bounds now a b t1 t2 Hb). cbn.
    destruct (time_le t1 now && time_le now t2) eqn:E.
    + exists (Some name). split; [done|]. split; [|by eauto].
      intros _. apply Exists_cons_hd. exists t1, t2. cbn.
      by apply andb_true_iff in E as [? ?].
    + exists found. split; [done|]. rewrite Hiff, Exists_cons.
      split; [by auto|]. intros [(t1' & t2' & Hb' & H1 & H2)|?]; [|done].
      cbn in Hb'. rewrite Hb in Hb'. injection Hb' as <- <-.
      rewrite H1, H2 in E. done.
Qed.

(** C4, as the code has it: every session window is the closed interval
    from its start to its end.  [is_trading_time()] answers True exactly
    when [start <= now <= end] for some window and False otherwise, and a
    time equal to the end of a window is inside it. *)
Theorem trading_windows_are_closed sessions now :
  Forall well_formed sessions →
  (is_trading_time sessions now = Ret true ↔ Exists (within_closed now) sessions) ∧
  (is_trading_time sessions now = Ret false ↔ ¬ Exists (within_closed now) sessions) ∧
  (∀ w t1 t2, w ∈ sessions → session_bounds w.2.1 w.2.2 = Ret (t1, t2) →
              time_le t1 t2 = true → is_trading_time sessions t2 = Ret true).
Proof.
  intros Hwf.
  assert (∀ t, (is_trading_time sessions t = Ret true ↔ Exists (within_closed t) sessions) ∧
               (is_trading_time sessions t = Ret false ↔ ¬ Exists (within_closed t) sessions))
    as Hboth.
  { intros t. destruct (first_session_closed sessions t Hwf) as (found & Hf & Hiff).
    unfold is_trading_time. rewrite Hf. cbn. rewrite <- Hiff.
    destruct found as [n|].
    - rewrite bool_decide_true by by eexists. split; [by split; [eexists|]|].
      split; [done|]. intros H. exfalso. apply H. by eexists.
    - rewrite bool_decide_false by by intros [? ?]. split.
      + split; [done|]. by intros [? ?].
      + split; [|done]. by intros _ [? ?]. }
  split; [apply Hboth|]. split; [apply Hboth|].
  intros w t1 t2 Hin Hb Hle. apply Hboth. apply Exists_exists. exists w. split; [done|].
  exists t1, t2. split; [done|]. split; [done|]. apply time_le_refl.
Qed.

Lemma TRADING_SESSIONS_well_formed : Forall well_formed TRADING_SESSIONS.
Proof.
  unfold TRADING_SESSIONS. repeat constructor; eexists _, _; vm_compute; reflexivity.
Qed.

Lemma trading_windows_are_closed_witness :
  is_trading_time TRADING_SESSIONS (mkTime 14 30 0 0) = Ret true.
Proof.
  apply (proj2 (proj2 (trading_windows_are_closed TRADING_SESSIONS (mkTime 14 30 0 0)
                         TRADING_SESSIONS_well_formed))
           ("after_hours", ("13:40", "14:30")) (mkTime 13 40 0 0) (mkTime 14 30 0 0)).
  - unfold TRADING_SESSIONS. apply elem_of_cons. right. apply elem_of_cons. right.
    apply elem_of_cons. left. reflexivity.
  - vm_compute. reflexivity.
  - vm_compute. reflexivity.
Defined.

(** The claim of C4 fails: at 13:30:00, the end of the "market" window,
    [is_trading_time()] answers True although no window has
    [start <= 13:30:00 < end]. *)
Lemma window_end_is_trading_time :
  is_trading_time TRADING_SESSIONS (mkTime 13 30 0 0) = Ret true ∧
  ¬ Exists (within_half_open (mkTime 13 30 0 0)) TRADING_SESSIONS.
Proof.
  split; [vm_compute; reflexivity|].
  unfold TRADING_SESSIONS. rewrite !Exists_cons, Exists_nil.
  intros [H|[H|[H|[]]]]; destruct H as (t1 & t2 & Hb & H1 & H2);
    vm_compute in Hb; injection Hb as <- <-; vm_compute in H1, H2; discriminate.
Qed.

(** *** Fetching quotes *)

Lemma M_bind_unfold {A B} (c : M A) (f : A → M B) st :
  (c ≫= f) st = match c st with
                | (Ret a, st') => f a st'
                | (Exc e, st') => (Exc e, st')
                end.
Proof. reflexivity. Qed.

Lemma table_at_alloc o h l : is_Some (h !! l) →
  table_at (alloc o h).2 l = table_at h l.
Proof.
  intros Hl. unfold alloc, table_at. cbn. rewrite lookup_insert_ne; [done|].
  intros <-. apply elem_of_dom in Hl. by apply is_fresh in Hl.
Qed.

Lemma table_at_new t h : table_at (alloc (Table t) h).2 (alloc (Table t) h).1 = Some t.
Proof. unfold alloc, table_at. cbn. by rewrite lookup_insert_eq. Qed.

Lemma table_at_is_Some h l t : table_at h l = Some t → is_Some (h !! l).
Proof. unfold table_at. destruct (h !! l); [by eauto|done]. Qed.

Lemma table_at_set_entry h r t l k d :
  table_at h r = Some t →
  ∃ t', table_at (mutate l (SetEntry k d) h) r = Some t' ∧ dom t' ⊆ dom t ∪ {[k]}.
Proof.
  unfold table_at, mutate. intros H. destruct (decide (l = r)) as [->|Hne].
  - rewrite lookup_alter_eq. destruct (h !! r) as [[|t0]|]; try done.
    injection H as ->. cbn. eexists. split; [done|]. rewrite dom_insert. set_solver.
  - rewrite lookup_alter_ne by done. exists t. split; [done|]. set_solver.
Qed.

Lemma resolve_valid a stock_ids sid :
  sid ∈ (resolve a stock_ids).2 → sid ∈ stock_ids ∧ resolvable a sid.
Proof.
  induction stock_ids as [|s l IH]; cbn; [by intros ?%elem_of_nil|].
  destruct (resolve a l) as [cs ids]. cbn in IH.
  destruct (Stocks a s) as [| |c] eqn:E; cbn; intros H.
  - destruct (IH H). split; [by apply elem_of_cons; right|done].
  - destruct (IH H). split; [by apply elem_of_cons; right|done].
  - apply elem_of_cons in H as [->|H].
    + split; [by apply elem_of_cons; left|]. unfold resolvable. by rewrite E.
    + destruct (IH H). split; [by apply elem_of_cons; right|done].
Qed.

Lemma resolve_filter a stock_ids :
  resolve a (filter (resolvable a) stock_ids) = resolve a stock_ids.
Proof.
  induction stock_ids as [|s l IH]; [done|]. rewrite filter_cons.
  unfold resolvable at 1. destruct (decide (resolved (Stocks a s) = true)) as [Hy|Hn];
    cbn; rewrite IH; [done|].
  destruct (resolve a l). by destruct (Stocks a s).
Qed.

Section FetchSnapshots.
Variable fdiv : Q → Q → Q.
Variable round2 : Q → Q.

Lemma store_snapshots_keys now now_str contracts valid_ids results snaps :
  ∀ i h w t, table_at h results = Some t →
  ∃ t', table_at (store_snapshots fdiv round2 now now_str contracts valid_ids results i snaps
                    (h, w)).2.1 results = Some t' ∧
        dom t' ⊆ dom t ∪ list_to_set valid_ids.
Proof.
  induction snaps as [|s snaps IH]; intros i h w t Ht.
  - exists t. split; [done|]. set_solver.
  - cbn [store_snapshots]. rewrite M_bind_unfold. unfold index at 1.
    destruct (valid_ids !! i) as [sid|] eqn:Hsid; [|exists t; split; [done|set_solver]].
    cbn. rewrite M_bind_unfold. unfold index at 1.
    destruct (contracts !! i) as [c|] eqn:Hc; [|exists t; split; [done|set_solver]].
    cbn. rewrite M_bind_unfold. unfold lift at 1.
    destruct (make_data fdiv round2 now_str sid c s) as [data|e];
      [|exists t; split; [done|set_solver]].
    rewrite M_bind_unfold. unfold new at 1.
    pose proof (table_at_alloc (Snapshot data) h results (table_at_is_Some _ _ _ Ht)) as Ha.
    destruct (alloc (Snapshot data) h) as [d h1]. cbn [snd] in Ha. rewrite Ht in Ha.
    rewrite M_bind_unfold. unfold setitem at 1.
    destruct (table_at_set_entry h1 results t results sid d Ha) as (t2 & Ht2 & Hd2).
    rewrite M_bind_unfold.
    destruct (table_at_set_entry _ results t2 (cache w) sid d Ht2) as (t3 & Ht3 & Hd3).
    destruct (IH (S i) _ (set_last_update now w) t3 Ht3) as (t' & Ht' & Hd').
    exists t'. split; [exact Ht'|].
    apply list_elem_of_lookup_2 in Hsid. set_solver.
Qed.

Lemma new_empty_table (st : heap * worker) :
  ∃ r h', new (Table ∅) st = (Ret r, (h', st.2)) ∧ table_at h' r = Some ∅.
Proof.
  destruct st as [h w]. unfold new.
  pose proof (table_at_new ∅ h) as H. destruct (alloc (Table ∅) h) as [l h'].
  by exists l, h'.
Qed.

Lemma fetch_body_keys now now_str a stock_ids h w r st' :
  fetch_body fdiv round2 now now_str a stock_ids (h, w) = (Ret r, st') →
  ∃ t, table_at st'.1 r = Some t ∧ dom t ⊆ list_to_set (resolve a stock_ids).2.
Proof.
  unfold fetch_body. destruct (resolve a stock_ids) as [contracts valid_ids]. cbn [snd].
  destruct contracts as [|c contracts].
  - intros H. destruct (new_empty_table (h, w)) as (r' & h' & Hn & Ht).
    rewrite Hn in H. injection H as <- <-. exists ∅. split; [done|]. set_solver.
  - rewrite M_bind_unfold. unfold lift at 1.
    destruct (snapshots a (c :: contracts)) as [snaps|e]; [|done].
    rewrite M_bind_unfold. unfold new at 1.
    pose proof (table_at_new ∅ h) as Ht. destruct (alloc (Table ∅) h) as [results h1].
    cbn [fst snd] in Ht. rewrite M_bind_unfold.
    destruct (store_snapshots_keys now now_str (c :: contracts) valid_ids results snaps
                0%nat h1 w ∅ Ht) as (t' & Ht' & Hd').
    destruct (store_snapshots _ _ _ _ _ _ _ _ _ _) as [[[]|e] [h2 w2]]; [|done].
    cbn. intros [= <- <-]. exists t'. split; [exact Ht'|]. set_solver.
Qed.

(** C6: [fetch_snapshots(stock_ids)] always returns, and returns a symbol
    table whose keys are requested symbols that resolved to a contract; the
    symbols that do not resolve could as well have been left out of the
    batch; when the worker is disconnected or has no session, and whenever
    the body raises (a failing [snapshots] call among others), the table
    returned is a new empty one. *)
Theorem fetch_snapshots_never_raises now now_str stock_ids h w :
  (∃ r st' t,
      fetch_snapshots fdiv round2 now now_str stock_ids (h, w) = (Ret r, st') ∧
      table_at st'.1 r = Some t ∧
      dom t ⊆ list_to_set stock_ids ∧
      (∀ sid, sid ∈ dom t → ∃ a, api w = Some a ∧ resolvable a sid)) ∧
  (∀ a, api w = Some a →
      fetch_snapshots fdiv round2 now now_str (filter (resolvable a) stock_ids) (h, w) =
      fetch_snapshots fdiv round2 now now_str stock_ids (h, w)) ∧
  (is_connected w = false ∨ api w = None →
      fetch_snapshots fdiv round2 now now_str stock_ids (h, w) = new (Table ∅) (h, w)) ∧
  (∀ a e st', is_connected w = true → api w = Some a →
      fetch_body fdiv round2 now now_str a stock_ids (h, w) = (Exc e, st') →
      fetch_snapshots fdiv round2 now now_str stock_ids (h, w) = new (Table ∅) st') ∧
  (∀ a e, is_connected w = true → api w = Some a →
      snapshots a (resolve a stock_ids).1 = Exc e →
      fetch_snapshots fdiv round2 now now_str stock_ids (h, w) = new (Table ∅) (h, w)).
Proof.
  split; [|split; [|split; [|split]]].
  - unfold fetch_snapshots.
    destruct (is_connected w) eqn:Hc; [destruct (api w) as [a|] eqn:Ha|].
    + unfold try_except.
      destruct (fetch_body fdiv round2 now now_str a stock_ids (h, w)) as [[r|e] st'] eqn:Hb.
      * destruct (fetch_body_keys _ _ _ _ _ _ _ _ Hb) as (t & Ht & Hd).
        exists r, st', t. split; [done|]. split; [done|]. split.
        -- intros sid Hs. apply Hd, elem_of_list_to_set, resolve_valid in Hs as [Hs _].
           by apply elem_of_list_to_set.
        -- intros sid Hs. apply Hd, elem_of_list_to_set, resolve_valid in Hs as [_ Hs]. eauto.
      * destruct (new_empty_table st') as (r & h' & Hn & Ht).
        exists r, (h', st'.2), ∅. split; [done|]. split; [done|]. set_solver.
    + destruct (new_empty_table (h, w)) as (r & h' & Hn & Ht).
      exists r, (h', w), ∅. split; [done|]. split; [done|]. set_solver.
    + destruct (new_empty_table (h, w)) as (r & h' & Hn & Ht).
      exists r, (h', w), ∅. split; [done|]. split; [done|]. set_solver.
  - intros a Ha. unfold fetch_snapshots, try_except, fetch_body. rewrite Ha.
    by rewrite resolve_filter.
  - intros [Hc|Ha]; unfold fetch_snapshots; [by rewrite Hc|].
    rewrite Ha. by destruct (is_connected w).
  - intros a e st' Hc Ha Hb. unfold fetch_snapshots, try_except. by rewrite Hc, Ha, Hb.
  - intros a e Hc Ha Hs. unfold fetch_snapshots, try_except, fetch_body. rewrite Hc, Ha.
    destruct (resolve a stock_ids) as [contracts valid_ids]. cbn [fst] in Hs.
    destruct contracts as [|c contracts].
    { destruct (new_empty_table (h, w)) as (r & h' & Hn & _). by rewrite Hn. }
    rewrite M_bind_unfold. unfold lift at 1. by rewrite Hs.
Qed.

End FetchSnapshots.

Lemma fetch_snapshots_never_raises_witness :
  fetch_snapshots Qdiv (λ q, q) 7 "09:00:15" ["0000"; "2330"] (cached_905, worker_1) =
    new (Table ∅) (cached_905, worker_1) ∧
  fetch_snapshots Qdiv (λ q, q) 7 "09:00:15" ["0000"; "2330"] (cached_905, worker_down) =
    new (Table ∅) (cached_905, worker_down) ∧
  fetch_snapshots Qdiv (λ q, q) 7 "09:00:15" (filter (resolvable source_898) ["0000"; "2330"])
                  (cached_905, worker_898) =
    fetch_snapshots Qdiv (λ q, q) 7 "09:00:15" ["0000"; "2330"] (cached_905, worker_898).
Proof.
  split; [|split].
  - destruct (fetch_snapshots_never_raises Qdiv (λ q, q) 7 "09:00:15" ["0000"; "2330"]
                cached_905 worker_1) as (_ & _ & Hoff & _).
    apply Hoff. left. reflexivity.
  - destruct (fetch_snapshots_never_raises Qdiv (λ q, q) 7 "09:00:15" ["0000"; "2330"]
                cached_905 worker_down) as (_ & _ & _ & _ & Hdown).
    apply (Hdown source_down (Raise "timeout")); reflexivity.
  - destruct (fetch_snapshots_never_raises Qdiv (λ q, q) 7 "09:00:15" ["0000"; "2330"]
                cached_905 worker_898) as (_ & Hskip & _).
    apply (Hskip source_898). reflexivity.
Defined.

(** A batch of an unknown symbol and 2330 against the source quoting 898:
    the table returned has the one key 2330, and the cache now reads 898. *)
Example fetch_snapshots_partial :
  ∃ r h w,
    fetch_snapshots Qdiv (λ q, q) 7 "09:00:15" ["0000"; "2330"] (cached_905, worker_898) =
      (Ret r, (h, w)) ∧
    dom <$> table_at h r = Some ({[ "2330" ]} : gset string) ∧
    read_one "2330" (h, w) ≫= (.!! "price") = Some (VNum 898) ∧
    last_update w = Some 7.
Proof.
  eexists _, _, _. split; [vm_compute; reflexivity|]. repeat split; vm_compute; reflexivity.
Qed.

(** *** Reading the cache *)

Lemma snapshot_at_alloc_table t h r :
  snapshot_at (alloc (Table t) h).2 r = snapshot_at h r.
Proof.
  unfold alloc, snapshot_at. cbn. destruct (decide (fresh (dom h) = r)) as [<-|Hne].
  - rewrite lookup_insert_eq.
    assert (h !! fresh (dom h) = None) as ->; [|done].
    apply not_elem_of_dom, is_fresh.
  - by rewrite lookup_insert_ne.
Qed.

Lemma contents_ext h h' t :
  (∀ r, snapshot_at h r = snapshot_at h' r) → contents h t = contents h' t.
Proof.
  intros H. unfold contents. apply map_eq. intros k.
  rewrite !lookup_omap. destruct (t !! k) as [r|]; cbn; [apply H|done].
Qed.

(** What the two reads give, in terms of the heap they start from. *)
Lemma read_all_eq h w : read_all (h, w) = contents h <$> table_at h (cache w).
Proof.
  unfold read_all, get_cache. destruct (table_at h (cache w)) as [t|]; [|done].
  unfold new. pose proof (snapshot_at_alloc_table t h) as Hs.
  unfold alloc in *. cbn in *. unfold table_at at 1. rewrite lookup_insert_eq. cbn.
  f_equal. by apply contents_ext.
Qed.

Lemma read_one_eq sid h w :
  read_one sid (h, w) = t ← table_at h (cache w); r ← t !! sid; snapshot_at h r.
Proof.
  unfold read_one, get_stock_cache. destruct (table_at h (cache w)) as [t|]; [|done].
  cbn. by destruct (t !! sid).
Qed.

(** A mutation of a symbol table leaves every quote as it was. *)
Lemma snapshot_at_mutate_table h l t mu r :
  table_at h l = Some t → snapshot_at (mutate l mu h) r = snapshot_at h r.
Proof.
  unfold table_at, snapshot_at, mutate. intros Ht. destruct (decide (l = r)) as [->|Hne].
  - rewrite lookup_alter_eq. destruct (h !! r) as [[|t0]|]; try done. by destruct mu.
  - by rewrite lookup_alter_ne.
Qed.

Lemma table_at_mutate_ne h l l' mu : l ≠ l' → table_at (mutate l mu h) l' = table_at h l'.
Proof. intros H. unfold table_at, mutate. by rewrite lookup_alter_ne. Qed.

(** C8, as the code has it: [get_cache()] hands out a new symbol table with
    the entries of the cache, and nothing done to that table shows in later
    reads; [get_stock_cache(symbol)] hands out the very quote the cache
    refers to, the copy made by [get_cache()] refers to that same quote, and
    a field written through the reference is what later reads return. *)
Theorem cache_reads_share_quotes h w t :
  table_at h (cache w) = Some t →
  (∃ l h1, get_cache (h, w) = (Ret l, (h1, w)) ∧ (l ∉ dom h) ∧
     table_at h1 l = Some t ∧ table_at h1 (cache w) = Some t ∧
     ∀ mu, read_all (mutate l mu h1, w) = read_all (h1, w) ∧
           ∀ sid, read_one sid (mutate l mu h1, w) = read_one sid (h1, w)) ∧
  (∀ sid, get_stock_cache sid (h, w) = (Ret (t !! sid), (h, w))) ∧
  (∀ sid r d k v, t !! sid = Some r → snapshot_at h r = Some d →
     read_one sid (mutate r (SetField k v) h, w) = Some (<[k := v]> d) ∧
     read_all (mutate r (SetField k v) h, w) ≫= (.!! sid) = Some (<[k := v]> d)).
Proof.
  intros Ht. split; [|split].
  - unfold get_cache, new. rewrite Ht.
    assert (((alloc (Table t) h).1 ∉ dom h) ∧
            table_at (alloc (Table t) h).2 (alloc (Table t) h).1 = Some t) as (Hfresh & Hnew).
    { unfold alloc, table_at. cbn. rewrite lookup_insert_eq. split; [apply is_fresh|done]. }
    destruct (alloc (Table t) h) as [l h1] eqn:Hal. cbn [fst snd] in *.
    assert (h1 = (alloc (Table t) h).2) as Hh1 by (by rewrite Hal).
    assert (cache w ≠ l) as Hne.
    { intros <-. apply Hfresh, elem_of_dom. by eapply table_at_is_Some. }
    exists l, h1. split; [done|]. split; [done|]. split; [done|]. split.
    { rewrite <- Ht, Hh1. apply table_at_alloc. by eapply table_at_is_Some. }
    intros mu. rewrite !read_all_eq. split.
    + rewrite table_at_mutate_ne by done. destruct (table_at h1 (cache w)); [|done].
      cbn. f_equal. apply contents_ext. intros r. by eapply snapshot_at_mutate_table.
    + intros sid. rewrite !read_one_eq, table_at_mutate_ne by done.
      destruct (table_at h1 (cache w)) as [t1|]; [|done]. cbn.
      destruct (t1 !! sid); [|done]. cbn. by eapply snapshot_at_mutate_table.
  - intros sid. unfold get_stock_cache. by rewrite Ht.
  - intros sid r d k v Hr Hd.
    assert (r ≠ cache w) as Hne.
    { intros ->. unfold snapshot_at, table_at in *. by destruct (h !! cache w) as [[|]|]. }
    assert (snapshot_at (mutate r (SetField k v) h) r = Some (<[k := v]> d)) as Hs.
    { unfold snapshot_at, mutate in *. rewrite lookup_alter_eq.
      destruct (h !! r) as [[d0|]|]; try done. by injection Hd as ->. }
    rewrite read_one_eq, read_all_eq, table_at_mutate_ne, Ht by done. cbn.
    rewrite Hr. cbn. split; [done|]. unfold contents. by rewrite lookup_omap, Hr.
Qed.

Lemma cache_reads_share_quotes_witness :
  read_one "2330" (mutate 2%positive (SetField "price" (VNum 0)) cached_905, worker_1) =
    Some (<["price" := VNum 0]> {[ "price" := VNum 905 ]}).
Proof.
  apply (proj2 (proj2 (cache_reads_share_quotes cached_905 worker_1
                         {[ "2330" := 2%positive ]} eq_refl))
           "2330" 2%positive {[ "price" := VNum 905 ]} "price" (VNum 0)).
  - reflexivity.
  - reflexivity.
Defined.

(** The claim of C8 fails: the reference [get_stock_cache("2330")] returns
    is the cached quote itself, and so is the one found in the copy
    [get_cache()] returns; setting its price to 0 changes what both reads
    return afterwards. *)
Lemma cached_quote_is_not_a_copy :
  get_stock_cache "2330" (cached_905, worker_1) =
    (Ret (Some 2%positive), (cached_905, worker_1)) ∧
  read_one "2330" (cached_905, worker_1) = Some {[ "price" := VNum 905 ]} ∧
  read_one "2330" (mutate 2%positive (SetField "price" (VNum 0)) cached_905, worker_1) =
    Some {[ "price" := VNum 0 ]} ∧
  (∃ l h1, get_cache (cached_905, worker_1) = (Ret l, (h1, worker_1)) ∧
           table_at h1 l = Some {[ "2330" := 2%positive ]} ∧
           read_all (h1, worker_1) = Some {[ "2330" := {[ "price" := VNum 905 ]} ]} ∧
           read_all (mutate 2%positive (SetField "price" (VNum 0)) h1, worker_1) =
             Some {[ "2330" := {[ "price" := VNum 0 ]} ]}).
Proof.
  split; [reflexivity|]. split; [vm_compute; reflexivity|]. split; [vm_compute; reflexivity|].
  eexists _, _. split; [reflexivity|]. repeat split; vm_compute; reflexivity.
Qed.

Lemma keeps_session_ret {A} (a : A) : keeps_session (mret a : M A).
Proof. by intros st. Qed.

Lemma keeps_session_bind {A B} (m : M A) (f : A → M B) :
  keeps_session m → (∀ a, keeps_session (f a)) → keeps_session (m ≫= f).
Proof.
  intros Hm Hf st. rewrite M_bind_unfold. specialize (Hm st).
  destruct (m st) as [[a|e] st1]; cbn [fst snd] in *; [|done].
  destruct (Hf a st1) as [H1 H2]. by rewrite H1, H2.
Qed.

Lemma keeps_session_lift {A} (r : result A) : keeps_session (lift r).
Proof. by intros st. Qed.

Lemma keeps_session_new o : keeps_session (new o).
Proof. intros [h w]. unfold new. by destruct (alloc o h). Qed.

Lemma keeps_session_index {A} (xs : list A) i : keeps_session (index xs i).
Proof. intros st. unfold index. by destruct (xs !! i). Qed.

Lemma keeps_session_try {A} (body : M A) (handler : exn → M A) :
  keeps_session body → (∀ e, keeps_session (handler e)) →
  keeps_session (try_except body handler).
Proof.
  intros Hb Hh st. unfold try_except. specialize (Hb st).
  destruct (body st) as [[a|e] st1]; cbn [fst snd] in *; [done|].
  destruct (Hh e st1) as [H1 H2]. by rewrite H1, H2.
Qed.

Section FetchKeepsSession.
Variable fdiv : Q → Q → Q.
Variable round2 : Q → Q.

Lemma store_snapshots_keeps_session now now_str contracts valid_ids results snaps : ∀ i,
  keeps_session (store_snapshots fdiv round2 now now_str contracts valid_ids results i snaps).
Proof.
  induction snaps as [|s snaps IH]; intros i; [apply keeps_session_ret|].
  cbn [store_snapshots].
  apply keeps_session_bind; [apply keeps_session_index|intros sid].
  apply keeps_session_bind; [apply keeps_session_index|intros c].
  apply keeps_session_bind; [apply keeps_session_lift|intros data].
  apply keeps_session_bind; [apply keeps_session_new|intros d].
  apply keeps_session_bind; [by intros [h w]|intros _].
  apply keeps_session_bind; [by intros [h w]|intros _].
  apply IH.
Qed.

(** [fetch_snapshots] leaves the connection flag and the retry counter as
    they were, on any heap and however it ends. *)
Lemma fetch_snapshots_keeps_session now now_str stock_ids :
  keeps_session (fetch_snapshots fdiv round2 now now_str stock_ids).
Proof.
  intros [h w]. unfold fetch_snapshots.
  destruct (is_connected w) eqn:Hc; [|apply (keeps_session_new _ (h, w))].
  destruct (api w) as [a|]; [|apply (keeps_session_new _ (h, w))].
  apply (keeps_session_try _ _); [|intros e; apply keeps_session_new].
  unfold fetch_body. destruct (resolve a stock_ids) as [contracts valid_ids].
  destruct contracts as [|c contracts]; [apply keeps_session_new|].
  apply keeps_session_bind; [apply keeps_session_lift|intros snaps].
  apply keeps_session_bind; [apply keeps_session_new|intros results].
  apply keeps_session_bind; [apply store_snapshots_keeps_session|intros _].
  apply keeps_session_ret.
Qed.

End FetchKeepsSession.

(** A connected worker has a retry counter of 0, in every state the
    program can reach. *)
Lemma reachable_counter_zero w :
  reachable w → is_connected w = true → _retry_count w = 0.
Proof.
  induction 1 as [h|c w Hw IH|fdiv round2 now now_str stock_ids h w Hw IH].
  - unfold init. by destruct (alloc (Table ∅) h).
  - apply (connected_counter_zero [c] w IH).
  - destruct (fetch_snapshots_keeps_session fdiv round2 now now_str stock_ids (h, w))
      as [H1 H2]. cbn [snd] in H1, H2. rewrite H1, H2. exact IH.
Qed.

(** C2: from a retry counter of 0, consecutive failing [reconnect()] calls
    sleep the delays 5, 10, 15, 30, 60, 60, 120, 120, 300, 300 in that
    order and then no more, each call counting one attempt; once the
    counter has reached 10 a call returns False with no sleep and without
    consulting the connection, whatever it would have answered; and a
    [connect()] that returns True leaves the counter at 0: on any worker
    at all when it was not connected, and on every worker the program can
    reach - by [connect], [disconnect], [reconnect] and [fetch_snapshots]
    from a new one - when it was. *)
Theorem reconnect_backoff :
  (∀ os w, _retry_count w = 0 → Forall fails os →
     sleeps (reconnects os w).1.2 = take (length os) [5; 10; 15; 30; 60; 60; 120; 120; 300; 300] ∧
     (logins (reconnects os w).1.2 ≤ 10)%nat ∧
     Forall (λ ok, ok = false) (reconnects os w).2 ∧
     _retry_count (reconnects os w).1.1 = Z.of_nat (length os)) ∧
  (∀ o w, 10 ≤ _retry_count w →
     reconnect o w =
       (set_retry_count (_retry_count w + 1) (disconnect w).1, (disconnect w).2, false) ∧
     sleeps (reconnect o w).1.2 = [] ∧ logins (reconnect o w).1.2 = 0%nat) ∧
  (∀ o w, is_connected w = false ∨ reachable w →
     (connect o w).2 = true → _retry_count (connect o w).1.1 = 0).
Proof.
  split; [|split].
  - intros os w Hw Hf. destruct (reconnects_fail os w 0%nat Hw Hf) as (Hs & Hl & Hoks & Hn).
    split; [exact Hs|]. split; [|split; [exact Hoks|exact Hn]].
    etrans; [exact Hl|]. rewrite length_take. cbn. lia.
  - intros o w Hw. unfold reconnect.
    destruct (disconnect w) as [w1 fx1] eqn:Hd.
    pose proof (disconnect_fields w) as [_ Hr1]. pose proof (disconnect_quiet w) as [Hs1 Hl1].
    rewrite Hd in *. cbn [fst snd] in *. cbn [_retry_count set_retry_count].
    destruct (Z.ltb_spec _max_retry (_retry_count w1 + 1)) as [Hlt|Hge]; unfold _max_retry in *.
    + by rewrite Hr1.
    + lia.
  - intros o w Hw Hok. unfold connect in *. destruct (is_connected w) eqn:E.
    + cbn [fst]. destruct Hw as [Hw|Hw]; [done|]. by apply reachable_counter_zero.
    + by destruct o.
Qed.

Lemma reconnect_backoff_witness :
  sleeps (reconnects (replicate 12 CtorRaises) worker_1).1.2 =
    [5; 10; 15; 30; 60; 60; 120; 120; 300; 300] ∧
  sleeps (reconnect (LoginOk source_898 0) (set_retry_count 10 worker_1)).1.2 = [] ∧
  _retry_count
    (connect (LoginOk source_898 3)
       (fetch_snapshots Qdiv (λ q, q) 7 "09:00:15" ["2330"]
          ((init ∅).2, do_call (CallConnect (LoginOk source_898 3)) (init ∅).1)).2.2).1.1 = 0 ∧
  _retry_count (connect (LoginOk source_898 3) (set_retry_count 3 worker_1)).1.1 = 0.
Proof.
  destruct reconnect_backoff as (Hdelays & Hstop & Hreset). split; [|split; [|split]].
  - apply (Hdelays (replicate 12 CtorRaises) worker_1).
    + reflexivity.
    + repeat constructor.
  - apply (Hstop (LoginOk source_898 0) (set_retry_count 10 worker_1)). cbn. lia.
  - apply Hreset.
    + right. apply (reachable_fetch Qdiv (λ q, q) 7 "09:00:15" ["2330"] (init ∅).2).
      apply reachable_call, reachable_init.
    + reflexivity.
  - apply Hreset; [left|]; reflexivity.
Defined.

End ShioajiWorkerSpec.

(** ** The scheduled jobs *)

Module JobsSpec.
Import Jobs.

Section Institutional.
Context {Market Stocks : Type}.
Implicit Types (market : result Market) (stocks : result Stocks).


End Institutional.


(** C10: on a Saturday or a Sunday a scheduled firing of either job returns
    at once - nothing fetched or generated, the job's state unchanged -
    while the manual paths make their calls on that day as on any other:
    [manual_fetch] its fetch calls with the date it was given, and
    [generate_daily_review] the review for the date it was given, or for
    today when it was given none or an empty one. *)
Theorem weekend_firing_is_noop today :
  weekday today = 5 ∨ weekday today = 6 →
  (∀ Market Stocks (market : result Market) (stocks : result Stocks) w,
     scheduled_fetch Market Stocks today market stocks w = (w, [], Ret tt)) ∧
  (∀ review_day review a,
     scheduled_daily_review today review_day review a = (a, [], Ret tt)) ∧
  (∀ Market Stocks date_str (market : result Market) (stocks : result Stocks) w,
     (manual_fetch Market Stocks date_str market stocks w).1.2 = body_calls date_str market) ∧
  (∀ review a,
     (generate_daily_review None today review a).1.2 = [GenerateReview (isoformat today)] ∧
     (generate_daily_review (Some "") today review a).1.2 =
       [GenerateReview (isoformat today)] ∧
     ∀ s, s ≠ "" →
       (generate_daily_review (Some s) today review a).1.2 = [GenerateReview s]).
Proof.
  intros Hwe. assert ((5 <=? weekday today) = true) as H5 by (apply Z.leb_le; lia).
  split; [|split; [|split]].
  - intros. unfold scheduled_fetch. by rewrite H5.
  - intros. unfold scheduled_daily_review. by rewrite H5.
  - intros. unfold manual_fetch. by destruct market, stocks.
  - intros review a. unfold generate_daily_review. split; [by destruct review|].
    split; [by destruct review|]. intros s Hs. cbn [date_or_today].
    destruct (String.eqb_spec s ""); [done|]. by destruct review.
Qed.

Lemma weekend_firing_is_noop_witness :
  scheduled_fetch unit unit saturday (Ret tt) (Ret tt) institutional_init
    = (institutional_init, [], Ret tt) ∧
  scheduled_daily_review saturday saturday (Ret "review") (mkAnalyzer None)
    = (mkAnalyzer None, [], Ret tt) ∧
  (generate_daily_review (Some "") saturday (Ret "review") (mkAnalyzer None)).1.2 =
    [GenerateReview "2024-06-15"].
Proof.
  assert (weekday saturday = 5 ∨ weekday saturday = 6) as H by (left; reflexivity).
  destruct (weekend_firing_is_noop saturday H) as (H1 & H2 & _ & H4). split; [|split].
  - apply H1.
  - apply H2.
  - apply (proj1 (proj2 (H4 (Ret "review") (mkAnalyzer None)))).
Defined.

(** C7, as the code has it: neither scheduled entry point lets an
    exception of its job body out.  [scheduled_fetch] records an exception
    as status "error: <message>" and keeps the last-run date, and on
    success records "success" and today's date.  [scheduled_daily_review]
    keeps no status: an exception leaves the analyzer as it was, and a
    successful run records the date of the review. *)
Theorem job_boundary_catches today :
  weekday today < 5 →
  (∀ Market Stocks (market : result Market) (stocks : result Stocks) w,
     (scheduled_fetch Market Stocks today market stocks w).2 = Ret tt ∧
     ((last_fetch_date w ≠ Some (isoformat today)) →
        (∀ e, body_outcome market stocks = Exc e →
           (scheduled_fetch Market Stocks today market stocks w).1.1 =
             mkInstitutional (last_fetch_date w) ("error: " +:+ exn_message e)) ∧
        (body_outcome market stocks = Ret tt →
           (scheduled_fetch Market Stocks today market stocks w).1.1 =
             mkInstitutional (Some (isoformat today)) "success"))) ∧
  (∀ review_day review a,
     (scheduled_daily_review today review_day review a).2 = Ret tt ∧
     ((last_review_date a ≠ Some (isoformat today)) →
        (∀ e, review = Exc e →
           (scheduled_daily_review today review_day review a).1.1 = a) ∧
        (∀ text, review = Ret text →
           (scheduled_daily_review today review_day review a).1.1 =
             mkAnalyzer (Some (isoformat review_day))))).
Proof.
  intros Hwd. assert ((5 <=? weekday today) = false) as H5 by (apply Z.leb_gt; lia).
  split.
  - intros Market Stocks market stocks w. unfold scheduled_fetch. rewrite H5. split.
    + case_bool_decide; [done|]. by destruct market, stocks.
    + intros Hne. rewrite bool_decide_false by done. split.
      * intros e. destruct market, stocks; cbn; intros [= ->]; done.
      * destruct market, stocks; cbn; done.
  - intros review_day review a. unfold scheduled_daily_review. rewrite H5. split.
    + case_bool_decide; [done|]. by destruct review.
    + intros Hne. rewrite bool_decide_false by done. split.
      * by intros e ->.
      * by intros text ->.
Qed.

Lemma job_boundary_catches_witness :
  (scheduled_fetch unit unit monday (Exc (Raise "timeout")) (Ret tt) institutional_init).1.1 =
    mkInstitutional None "error: timeout" ∧
  (scheduled_daily_review monday monday (Exc (Raise "timeout")) (mkAnalyzer None)).1.1 =
    mkAnalyzer None.
Proof.
  assert (weekday monday < 5) as H by reflexivity.
  destruct (job_boundary_catches monday H) as [H1 H2]. split.
  - destruct (H1 unit unit (Exc (Raise "timeout")) (Ret tt) institutional_init) as [_ H1'].
    assert (last_fetch_date institutional_init ≠ Some (isoformat monday)) as Hne by discriminate.
    destruct (H1' Hne) as [Herr _]. exact (Herr (Raise "timeout") eq_refl).
  - destruct (H2 monday (Exc (Raise "timeout")) (mkAnalyzer None)) as [_ H2'].
    assert (last_review_date (mkAnalyzer None) ≠ Some (isoformat monday)) as Hne by discriminate.
    destruct (H2' Hne) as [Herr _]. exact (Herr (Raise "timeout") eq_refl).
Defined.

(** The claim of C7 fails for the review job: a firing whose body raises
    returns the analyzer it was given, so nothing that can be read from the
    analyzer afterwards tells "error: <message>". *)
Lemma review_job_records_no_status :
  scheduled_daily_review monday monday (Exc (Raise "timeout")) (mkAnalyzer None) =
    (mkAnalyzer None, [GenerateReview "2024-06-17"], Ret tt) ∧
  ¬ (∃ status_of : AIAnalyzer → string, ∀ msg,
      status_of (scheduled_daily_review monday monday (Exc (Raise msg)) (mkAnalyzer None)).1.1 =
        "error: " +:+ msg).
Proof.
  split; [reflexivity|]. intros [status_of H].
  assert (∀ msg, (scheduled_daily_review monday monday (Exc (Raise msg))
                    (mkAnalyzer None)).1.1 = mkAnalyzer None) as Hsame by reflexivity.
  pose proof (H "a") as Ha. pose proof (H "b") as Hb.
  rewrite Hsame in Ha, Hb. rewrite Ha in Hb. discriminate.
Qed.

End JobsSpec.

(** * Further properties

    Properties of the same code beyond the statements of the
    specification, numbered X1, X2, ... *)

(** ** The alert table and the event queue *)

Module AlertManagerMoreSpec.
Import AlertManager AlertManagerSpec AlertManagerMore.

Lemma keep_last_length {A} n (l : list A) : (length (keep_last n l) ≤ n)%nat.
Proof. unfold keep_last. rewrite length_drop. lia. Qed.

Lemma keep_last_suffix {A} n (l : list A) : keep_last n l `suffix_of` l.
Proof. unfold keep_last. apply suffix_drop. Qed.

Lemma keep_last_keeps_suffix {A} n (l k : list A) :
  (length k ≤ n)%nat → k `suffix_of` keep_last n (l ++ k).
Proof.
  intros Hk. unfold keep_last. rewrite length_app.
  destruct (decide (length l + length k ≤ n)%nat) as [Hle|Hgt].
  - replace (length l + length k - n)%nat with 0%nat by lia. cbn. by apply suffix_app_r.
  - rewrite drop_app_le by lia. by apply suffix_app_r.
Qed.

Lemma keep_last_short {A} n (l : list A) : (length l ≤ n)%nat → keep_last n l = l.
Proof. intros Hl. unfold keep_last. by replace (length l - n)%nat with 0%nat by lia. Qed.

(** X1: the queue [triggered_alerts] after a call is a suffix of the old
    queue followed by the events the call returned; a queue of at most 50
    entries stays within 50; and a call that fires at most 50 events leaves
    all of them at the end of the queue. *)
Theorem queue_keeps_newest_50 now qs m :
  triggered_alerts (check_alerts now qs m).1
    `suffix_of` (triggered_alerts m ++ returned (check_alerts now qs m).2) ∧
  ((length (triggered_alerts m) ≤ 50)%nat →
   (length (triggered_alerts (check_alerts now qs m).1) ≤ 50)%nat) ∧
  ((length (returned (check_alerts now qs m).2) ≤ 50)%nat →
   returned (check_alerts now qs m).2 `suffix_of` triggered_alerts (check_alerts now qs m).1).
Proof.
  unfold check_alerts. destruct (get_active_alerts (db m)) as [|a l].
  { cbn. rewrite app_nil_r. split; [done|]. split; [done|]. intros _. apply suffix_nil. }
  destruct (scan now qs (a :: l) (db m) []) as [[s' evs]|e]; cbn [fst snd returned].
  - destruct evs as [|e evs]; cbn [triggered_alerts].
    + rewrite app_nil_r. split; [done|]. split; [done|]. intros _. apply suffix_nil.
    + split; [apply keep_last_suffix|]. split; [intros _; apply keep_last_length|].
      apply keep_last_keeps_suffix.
  - rewrite app_nil_r. split; [done|]. split; [done|]. intros _. apply suffix_nil.
Qed.

Lemma queue_keeps_newest_50_witness :
  (length (triggered_alerts (check_alerts 2 (reading 2 1001).2 (mkManager [above_1000] [])).1)
     ≤ 50)%nat.
Proof.
  apply (proj1 (proj2 (queue_keeps_newest_50 2 (reading 2 1001).2 (mkManager [above_1000] [])))).
  cbn. lia.
Defined.

(** X2: draining with [clear=True] hands out the whole queue, empties it
    and leaves the table alone, so a second drain is empty; with
    [clear=False] the manager stays as it was.  After a call that started
    with an empty queue and fired at most 50 events, the drain returns
    exactly the events of that call. *)
Theorem drain_returns_the_queue now qs m :
  (get_recent_triggers true m).2 = triggered_alerts m ∧
  db (get_recent_triggers true m).1 = db m ∧
  (get_recent_triggers true (get_recent_triggers true m).1).2 = [] ∧
  get_recent_triggers false m = (m, triggered_alerts m) ∧
  (triggered_alerts m = [] →
   (length (returned (check_alerts now qs m).2) ≤ 50)%nat →
   (get_recent_triggers true (check_alerts now qs m).1).2 = returned (check_alerts now qs m).2).
Proof.
  repeat split. intros Hq. unfold check_alerts.
  destruct (get_active_alerts (db m)) as [|a l]; [done|].
  destruct (scan now qs (a :: l) (db m) []) as [[s' evs]|e]; [|done].
  cbn. destruct evs as [|e evs]; [done|]. intros Hlen.
  rewrite Hq. by apply keep_last_short.
Qed.

Lemma drain_returns_the_queue_witness :
  (get_recent_triggers true (check_alerts 2 (reading 2 1001).2 (mkManager [above_1000] [])).1).2 =
    returned (check_alerts 2 (reading 2 1001).2 (mkManager [above_1000] [])).2.
Proof.
  apply (proj2 (proj2 (proj2 (proj2
           (drain_returns_the_queue 2 (reading 2 1001).2 (mkManager [above_1000] [])))))).
  - reflexivity.
  - vm_compute. lia.
Defined.

Lemma ids_filter_NoDup (P : alert_row → Prop) `{!∀ r, Decision (P r)} s :
  NoDup (ids s) → NoDup (ids (filter P s)).
Proof.
  intros Hnd. eapply sublist_NoDup; [exact Hnd|]. apply fmap_sublist, sublist_filter.
Qed.

Lemma active_ids_subseteq s i : i ∈ active_ids s → i ∈ ids s.
Proof.
  intros (r & -> & Hr)%list_elem_of_fmap. apply list_elem_of_filter in Hr as [_ Hr].
  apply list_elem_of_fmap. eauto.
Qed.

Lemma count_fired_0 i evs : i ∉ fired evs → count_fired i evs = 0%nat.
Proof.
  intros Hn. unfold count_fired. destruct (filter _ evs) as [|e l] eqn:E; [done|].
  exfalso. apply Hn. assert (e ∈ filter (λ e0, ev_id e0 = i) evs) as Hin.
  { rewrite E. apply elem_of_cons. by left. }
  apply list_elem_of_filter in Hin as [<- Hin]. apply list_elem_of_fmap. eauto.
Qed.

(** X3: once [delete_alert(i)] has gone through, alert [i] produces no
    event in any later sequence of [check_alerts] calls; the rows of the
    other alerts stay, in their order, and deleting an id the table does
    not hold changes nothing. *)
Theorem deleted_alert_never_fires i m u :
  NoDup (ids (db m)) →
  (∀ ticks q,
     count_fired i (all_events ticks (mkManager (delete_alert (Ret u) i (db m)).1 q)) = 0%nat) ∧
  (delete_alert (Ret u) i (db m)).1 = filter (λ r, id r ≠ i) (db m) ∧
  (i ∉ ids (db m) → (delete_alert (Ret u) i (db m)).1 = db m).
Proof.
  intros Hnd. split; [|split].
  - intros ticks q. apply count_fired_0. intros Hin. cbn [delete_alert fst] in Hin.
    apply (proj2 (run_checks_inv ticks (mkManager (filter (λ r, id r ≠ i) (db m)) q)
                    (ids_filter_NoDup _ _ Hnd))) in Hin.
    apply active_ids_subseteq in Hin. cbn [db] in Hin.
    apply list_elem_of_fmap in Hin as (r & -> & Hr).
    by apply list_elem_of_filter in Hr as [Hne _].
  - done.
  - intros Hni. cbn. induction (db m) as [|r s IH]; [done|].
    unfold ids in Hni. rewrite fmap_cons in Hni. apply not_elem_of_cons in Hni as [Hr Hs].
    rewrite filter_cons_True by done. f_equal. apply IH; [|done].
    unfold ids in Hnd. rewrite fmap_cons in Hnd. by apply NoDup_cons in Hnd as [_ ?].
Qed.

Lemma deleted_alert_never_fires_witness :
  count_fired 1 (all_events readings
                   (mkManager (delete_alert (Ret tt) 1 [above_1000; below_900]).1 [])) = 0%nat.
Proof.
  apply (proj1 (deleted_alert_never_fires 1 (mkManager [above_1000; below_900] []) tt
                  ltac:(repeat constructor; set_solver))).
Defined.

(** X4: when the connection opens and the INSERT goes through with a rowid
    the table does not hold yet, [add_alert] returns True, keeps the ids
    distinct and the rows it found, the new alert is active at once, and
    deleting it again gives back the table as it was.  When the INSERT or
    its commit raises, [add_alert] answers False and the table is
    unchanged; when [sqlite3.connect] raises, the exception leaves
    [add_alert], the table unchanged as well. *)
Theorem added_alert_is_active rowid now sid sname atype target s e u inserted :
  NoDup (ids s) → rowid ∉ ids s →
  let row := mkAlert rowid sid sname atype target 0 None now in
  (add_alert (Ret u) (Ret rowid) now sid sname atype target s).2 = Ret true ∧
  NoDup (ids (add_alert (Ret u) (Ret rowid) now sid sname atype target s).1) ∧
  (∀ r, r ∈ s → r ∈ (add_alert (Ret u) (Ret rowid) now sid sname atype target s).1) ∧
  row ∈ get_active_alerts (add_alert (Ret u) (Ret rowid) now sid sname atype target s).1 ∧
  (delete_alert (Ret u) rowid
     (add_alert (Ret u) (Ret rowid) now sid sname atype target s).1).1 = s ∧
  add_alert (Ret u) (Exc e) now sid sname atype target s = (s, Ret false) ∧
  add_alert (Exc e) inserted now sid sname atype target s = (s, Exc e).
Proof.
  intros Hnd Hfresh row. cbn [add_alert delete_alert fst snd].
  split; [done|]. split; [|split; [|split; [|split; [|done]]]].
  - unfold ids. rewrite fmap_app. apply NoDup_app. split; [done|]. split.
    + intros i Hi Hi'. apply list_elem_of_singleton in Hi'. by subst.
    + apply NoDup_singleton.
  - intros r Hr. apply elem_of_app. by left.
  - apply get_active_alerts_elem. split; [done|]. apply elem_of_app. right.
    by apply list_elem_of_singleton.
  - rewrite filter_app, filter_cons_False, filter_nil, app_nil_r by (cbn; intros H; by apply H).
    clear Hnd. induction s as [|r s IH]; [done|].
    unfold ids in Hfresh. rewrite fmap_cons in Hfresh.
    apply not_elem_of_cons in Hfresh as [Hr Hs].
    rewrite filter_cons_True by congruence. f_equal. by apply IH.
Qed.

Lemma added_alert_is_active_witness :
  mkAlert 8 "2330" "TSMC" "above" 1000 0 None 5
    ∈ get_active_alerts (add_alert (Ret tt) (Ret 8) 5 "2330" "TSMC" "above" 1000 [below_900]).1.
Proof.
  assert (NoDup (ids [below_900])) as Hnd by apply NoDup_singleton.
  assert (8 ∉ ids [below_900]) as Hfresh.
  { intros H. apply list_elem_of_singleton in H. discriminate. }
  exact (proj1 (proj2 (proj2 (proj2
           (added_alert_is_active 8 5 "2330" "TSMC" "above" 1000 [below_900]
              (Raise "locked") tt (Ret 8) Hnd Hfresh))))).
Defined.

Lemma mark_all_elem now js s r' :
  r' ∈ mark_all now js s →
  ((id r' ∉ js) ∧ r' ∈ s) ∨ (id r' ∈ js ∧ is_triggered r' = 1 ∧ triggered_at r' = Some now).
Proof.
  revert s. induction js as [|i js IH]; intros s Hin.
  - left. split; [apply not_elem_of_nil|done].
  - rewrite mark_all_cons in Hin. apply IH in Hin as [[Hn Hin]|(Hj & Ht)].
    + unfold mark_triggered in Hin. apply list_elem_of_fmap in Hin as (r & -> & Hr).
      destruct (decide (id r = i)) as [Heq|Hne].
      * right. rewrite mark_row_id. split; [apply elem_of_cons; by left|].
        by apply mark_row_same.
      * rewrite mark_row_other in * by done. left. split; [|done].
        apply not_elem_of_cons. done.
    + right. split; [apply elem_of_cons; by right|done].
Qed.

(** X5: a [check_alerts] call touches the rows of the alerts it fires and
    no others: the table keeps its ids in their order, a row whose alert is
    not among the returned events is still there unchanged, and every row
    of a returned alert reads [is_triggered = 1], [triggered_at = now]. *)
Theorem check_alerts_touches_fired_rows_only now qs m :
  ids (db (check_alerts now qs m).1) = ids (db m) ∧
  (∀ r, r ∈ db m → id r ∉ fired (returned (check_alerts now qs m).2) →
        r ∈ db (check_alerts now qs m).1) ∧
  (∀ r', r' ∈ db (check_alerts now qs m).1 →
         id r' ∈ fired (returned (check_alerts now qs m).2) →
         is_triggered r' = 1 ∧ triggered_at r' = Some now).
Proof.
  destruct (check_alerts_cases now qs m) as [[e ->]|[q ->]]; cbn [fst snd db returned].
  - split; [done|]. split; [done|]. intros r' _ H. by apply elem_of_nil in H.
  - rewrite ids_mark_all. split; [done|]. split.
    + intros r Hr Hn. by apply mark_all_keeps.
    + intros r' Hr' Hf. apply mark_all_elem in Hr' as [[Hn _]|(_ & Ht)]; done.
Qed.

Lemma check_alerts_touches_fired_rows_only_witness :
  below_900 ∈ db (check_alerts 2 (reading 2 1001).2 (mkManager [above_1000; below_900] [])).1.
Proof.
  apply (proj1 (proj2 (check_alerts_touches_fired_rows_only 2 (reading 2 1001).2
                         (mkManager [above_1000; below_900] [])))).
  - apply elem_of_cons. right. apply elem_of_cons. left. reflexivity.
  - vm_compute. intros H. apply list_elem_of_singleton in H. discriminate.
Defined.

Lemma scan_db_Exc d now qs active : ∀ k s acc,
  (∃ e, scan_db d now qs active k s acc = Exc e) ↔
  ∃ j a, active !! j = Some a ∧
         (evaluate qs a = TypeError ∨
          (∃ p, evaluate qs a = Fire p) ∧ ∃ e, db_update d (k + j)%nat = Exc e).
Proof.
  induction active as [|a active IH]; intros k s acc; cbn [scan_db].
  - split; [by intros [? ?]|]. by intros (j & a & Hj & _).
  - assert ((∃ j a', (a :: active) !! j = Some a' ∧
               (evaluate qs a' = TypeError ∨
                (∃ p, evaluate qs a' = Fire p) ∧ ∃ e, db_update d (k + j)%nat = Exc e)) ↔
            (evaluate qs a = TypeError ∨
             (∃ p, evaluate qs a = Fire p) ∧ ∃ e, db_update d k = Exc e) ∨
            (∃ j a', active !! j = Some a' ∧
               (evaluate qs a' = TypeError ∨
                (∃ p, evaluate qs a' = Fire p) ∧ ∃ e, db_update d (S k + j)%nat = Exc e)))
      as ->.
    { split.
      - intros (j & a' & Hj & H). destruct j as [|j].
        + injection Hj as <-. left. by rewrite Nat.add_0_r in H.
        + right. exists j, a'. split; [done|].
          by replace (S k + j)%nat with (k + S j)%nat by lia.
      - intros [H|(j & a' & Hj & H)].
        + exists 0%nat, a. split; [done|]. by rewrite Nat.add_0_r.
        + exists (S j), a'. split; [done|].
          by replace (k + S j)%nat with (S k + j)%nat by lia. }
    destruct (evaluate qs a) as [| |p|] eqn:E.
    + rewrite IH. split; [by right|]. intros [[?|[[? ?] _]]|?]; done.
    + rewrite IH. split; [by right|]. intros [[?|[[? ?] _]]|?]; done.
    + destruct (db_update d k) as [[]|e] eqn:Hu.
      * rewrite IH. split; [by right|]. intros [[?|[_ [? ?]]]|?]; done.
      * split; [|by eauto]. intros _. left. right. by eauto.
    + split; [|by eauto]. intros _. left. by left.
Qed.

Lemma scan_db_ok d now qs active : ∀ k s acc,
  (∀ j, db_update d j = Ret tt) →
  scan_db d now qs active k s acc = scan now qs active s acc.
Proof.
  induction active as [|a active IH]; intros k s acc Hd; [done|].
  cbn [scan_db scan]. destruct (evaluate qs a); try done; rewrite ?Hd; by apply IH.
Qed.

(** X6: what makes [check_alerts] raise.  On a database that can fail, the
    call raises exactly when the read of the active alerts raises, or
    there are active alerts and the connection of line 91 raises, or the
    symbol of an active alert has a quote whose [price] is present and not
    a number, or the UPDATE for an active alert whose condition holds
    raises, or the commit raises.  Whenever it raises, the table and the
    queue are as they were.  On a database whose calls all go through it
    is the [check_alerts] of the other statements. *)
Theorem check_alerts_raises d now qs m :
  ((∃ e, (check_alerts_db d now qs m).2 = Exc e) ↔
   (∃ e, db_select d = Exc e) ∨
   (get_active_alerts (db m) ≠ [] ∧
    ((∃ e, db_connect d = Exc e) ∨
     (∃ j a, get_active_alerts (db m) !! j = Some a ∧
        ((∃ q v, qs !! stock_id a = Some q ∧ q !! "price" = Some v ∧ ∀ p, v ≠ VNum p) ∨
         (∃ p q, qs !! stock_id a = Some q ∧ q !! "price" = Some (VNum p) ∧
                 condition_holds a p) ∧
         ∃ e, db_update d j = Exc e)) ∨
     (∃ e, db_commit d = Exc e)))) ∧
  (∀ e, (check_alerts_db d now qs m).2 = Exc e → (check_alerts_db d now qs m).1 = m) ∧
  (db_select d = Ret tt → db_connect d = Ret tt → (∀ j, db_update d j = Ret tt) →
   db_commit d = Ret tt → check_alerts_db d now qs m = check_alerts now qs m).
Proof.
  assert (∀ active : list alert_row,
    (∃ j a, active !! j = Some a ∧
       (evaluate qs a = TypeError ∨
        (∃ p, evaluate qs a = Fire p) ∧ ∃ e, db_update d (0 + j)%nat = Exc e)) ↔
    (∃ j a, active !! j = Some a ∧
       ((∃ q v, qs !! stock_id a = Some q ∧ q !! "price" = Some v ∧ ∀ p, v ≠ VNum p) ∨
        (∃ p q, qs !! stock_id a = Some q ∧ q !! "price" = Some (VNum p) ∧
                condition_holds a p) ∧
        ∃ e, db_update d j = Exc e))) as Hloop.
  { intros active. split; intros (j & a & Hj & H); exists j, a; (split; [done|]).
    - destruct H as [H|[[p H] Hu]].
      + left. by apply evaluate_TypeError.
      + right. split; [|done]. apply evaluate_Fire in H as (q & ? & ? & ?). by exists p, q.
    - destruct H as [H|[(p & q & Hq & Hp & Hc) Hu]].
      + left. by apply evaluate_TypeError.
      + right. split; [|done]. exists p. apply evaluate_Fire. by exists q. }
  split; [|split].
  - unfold check_alerts_db. destruct (db_select d) as [[]|e0].
    2:{ split; [intros _; left; by eauto|]. intros _. by eauto. }
    destruct (get_active_alerts (db m)) as [|a l] eqn:Hact.
    { split; [by intros [? ?]|]. intros [[? ?]|[? _]]; done. }
    destruct (db_connect d) as [[]|e1].
    2:{ split; [|by eauto]. intros _. right. split; [done|]. left. by eauto. }
    rewrite <- Hloop, <- (scan_db_Exc d now qs (a :: l) 0 (db m) []).
    destruct (scan_db d now qs (a :: l) 0 (db m) []) as [[s' evs]|e2].
    + destruct (db_commit d) as [[]|e3]; cbn [snd].
      * split; [by intros [? ?]|]. intros [[? ?]|[_ [[? ?]|[[? ?]|[? ?]]]]]; done.
      * split; [|by eauto]. intros _. right. split; [done|]. right. right. by eauto.
    + split; [|by eauto]. intros _. right. split; [done|]. right. left. by eauto.
  - intros e. unfold check_alerts_db. destruct (db_select d) as [[]|e0]; [|done].
    destruct (get_active_alerts (db m)) as [|a l]; [done|].
    destruct (db_connect d) as [[]|e1]; [|done].
    destruct (scan_db d now qs (a :: l) 0 (db m) []) as [[s' evs]|e2]; [|done].
    by destruct (db_commit d) as [[]|e3].
  - intros Hs Hc Hu Hm. unfold check_alerts_db, check_alerts. rewrite Hs, Hc, Hm.
    destruct (get_active_alerts (db m)) as [|a l]; [done|]. by rewrite scan_db_ok.
Qed.

Lemma check_alerts_raises_witness :
  (check_alerts_db db_ok 1 quotes_bad_price (mkManager [below_900] [])).1 =
    mkManager [below_900] [] ∧
  (check_alerts_db db_commit_fails 2 (reading 2 1001).2 (mkManager [above_1000] [])).1 =
    mkManager [above_1000] [] ∧
  check_alerts_db db_ok 2 (reading 2 1001).2 (mkManager [above_1000] []) =
    check_alerts 2 (reading 2 1001).2 (mkManager [above_1000] []).
Proof.
  split; [|split].
  - apply (proj1 (proj2 (check_alerts_raises db_ok 1 quotes_bad_price
                           (mkManager [below_900] []))) (Raise "'<=' not supported")).
    reflexivity.
  - apply (proj1 (proj2 (check_alerts_raises db_commit_fails 2 (reading 2 1001).2
                           (mkManager [above_1000] []))) (Raise "disk I/O error")).
    reflexivity.
  - apply (proj2 (proj2 (check_alerts_raises db_ok 2 (reading 2 1001).2
                           (mkManager [above_1000] [])))); reflexivity.
Defined.

(** X7: when [check_alerts] returns, its events are exactly the active
    alerts whose symbol is quoted at a number above zero that satisfies the
    alert - at or over the target for "above", at or under it for "below" -
    each with that price and the time of the call; an alert of any other
    type never fires. *)
Theorem events_are_the_satisfied_alerts now qs m evs :
  (check_alerts now qs m).2 = Ret evs →
  (∀ e, e ∈ evs ↔
        ∃ a p q, a ∈ db m ∧ is_active a ∧ qs !! stock_id a = Some q ∧
                 q !! "price" = Some (VNum p) ∧ condition_holds a p ∧
                 e = alert_msg now a p) ∧
  (∀ e, e ∈ evs → ev_alert_type e = "above" ∨ ev_alert_type e = "below").
Proof.
  intros Hret.
  assert (evs = fires now qs (db m)) as ->.
  { destruct (check_alerts_cases now qs m) as [[e Hc]|[q Hc]]; rewrite Hc in Hret; cbn in Hret;
      congruence. }
  assert (∀ e, e ∈ fires now qs (db m) ↔
               ∃ a p, a ∈ get_active_alerts (db m) ∧ evaluate qs a = Fire p ∧
                      e = alert_msg now a p) as Hel.
  { intros e. unfold fires, firing. rewrite list_elem_of_omap. split.
    - intros (a & Ha & Hev). destruct (evaluate qs a) eqn:E; try done.
      injection Hev as <-. eauto.
    - intros (a & p & Ha & Hev & ->). exists a. by rewrite Hev. }
  split.
  - intros e. rewrite Hel. split.
    + intros (a & p & Ha & Hev & ->). apply get_active_alerts_elem in Ha as [Hact Ha].
      apply evaluate_Fire in Hev as (q & Hq & Hp & Hc). by exists a, p, q.
    + intros (a & p & q & Ha & Hact & Hq & Hp & Hc & ->). exists a, p.
      split; [by apply get_active_alerts_elem|]. split; [|done].
      apply evaluate_Fire. by exists q.
  - intros e (a & p & _ & Hev & ->)%Hel.
    apply evaluate_Fire in Hev as (_ & _ & _ & _ & [[Ht _]|[Ht _]]); cbn; auto.
Qed.

Lemma events_are_the_satisfied_alerts_witness :
  ev_alert_type (alert_msg 2 above_1000 1001) = "above" ∨
  ev_alert_type (alert_msg 2 above_1000 1001) = "below".
Proof.
  apply (proj2 (events_are_the_satisfied_alerts 2 (reading 2 1001).2
                  (mkManager [above_1000] []) [alert_msg 2 above_1000 1001] eq_refl)).
  apply list_elem_of_singleton. reflexivity.
Defined.

Lemma run_checks_app l1 l2 m :
  (run_checks (l1 ++ l2) m).1 = (run_checks l2 (run_checks l1 m).1).1 ∧
  all_events (l1 ++ l2) m = all_events l1 m ++ all_events l2 (run_checks l1 m).1.
Proof.
  revert m. induction l1 as [|[now qs] l1 IH]; intros m; [done|].
  rewrite <- app_comm_cons, !run_checks_cons. cbn [run_checks].
  destruct (IH (check_alerts now qs m).1) as [IH1 IH2].
  destruct (check_alerts now qs m) as [m1 r]. cbn [fst snd] in *.
  destruct (run_checks (l1 ++ l2) m1) as [m2 rs] eqn:E12.
  destruct (run_checks l1 m1) as [m3 rs3] eqn:E1. cbn [fst snd] in *.
  split; [done|]. by rewrite IH2, app_assoc.
Qed.

(** A call leaves alone an alert whose test does not come out as firing. *)
Lemma quiet_alert_stays now qs m a :
  NoDup (ids (db m)) → a ∈ db m → (∀ p, evaluate qs a ≠ Fire p) →
  a ∈ db (check_alerts now qs m).1 ∧ id a ∉ fired (returned (check_alerts now qs m).2).
Proof.
  intros Hnd Ha Hq.
  assert (id a ∉ fired (fires now qs (db m))) as Hnf.
  { intros H. apply firing_ids in H as (a' & p & Ha' & Hid & Hev).
    apply get_active_alerts_elem in Ha' as [_ Ha'].
    rewrite (fmap_NoDup_inj id (db m) a' a Hnd Ha' Ha Hid) in Hev. by apply (Hq p). }
  destruct (check_alerts_cases now qs m) as [[e ->]|[q ->]]; cbn [fst snd db returned].
  - split; [done|]. apply not_elem_of_nil.
  - split; [by apply mark_all_keeps|done].
Qed.

Lemma quiet_alert_stays_run pre : ∀ m a,
  NoDup (ids (db m)) → a ∈ db m →
  Forall (λ tick : Z * quotes, ∀ p, evaluate tick.2 a ≠ Fire p) pre →
  NoDup (ids (db (run_checks pre m).1)) ∧ a ∈ db (run_checks pre m).1 ∧
  id a ∉ fired (all_events pre m).
Proof.
  induction pre as [|[now qs] pre IH]; intros m a Hnd Ha Hq.
  - split; [done|]. split; [done|]. apply not_elem_of_nil.
  - apply Forall_cons in Hq as [Hq Hpre]. cbn [snd] in Hq.
    destruct (quiet_alert_stays now qs m a Hnd Ha Hq) as [Ha1 Hn1].
    destruct (check_alerts_inv now qs m Hnd) as (Hids & _).
    destruct (IH (check_alerts now qs m).1 a) as (Hnd2 & Ha2 & Hn2);
      [by rewrite Hids|done|done|].
    rewrite run_checks_cons. cbn [run_checks].
    destruct (check_alerts now qs m) as [m1 r]. cbn [fst snd] in *.
    destruct (run_checks pre m1) as [m2 rs]. cbn [fst snd] in *.
    split; [done|]. split; [done|].
    unfold fired. rewrite fmap_app. intros [H|H]%elem_of_app; [by apply Hn1|by apply Hn2].
Qed.

Lemma filter_fired_single evs e :
  NoDup (fired evs) → e ∈ evs → filter (λ e', ev_id e' = ev_id e) evs = [e].
Proof.
  induction evs as [|e0 evs IH]; intros Hnd He; [by apply elem_of_nil in He|].
  unfold fired in Hnd. rewrite fmap_cons in Hnd. apply NoDup_cons in Hnd as [Hn Hnd].
  apply elem_of_cons in He as [->|He].
  - rewrite filter_cons_True by done. f_equal.
    destruct (filter _ evs) as [|e' l] eqn:E; [done|]. exfalso. apply Hn.
    assert (e' ∈ filter (λ e', ev_id e' = ev_id e0) evs) as Hin.
    { rewrite E. apply elem_of_cons. by left. }
    apply list_elem_of_filter in Hin as [<- Hin]. apply list_elem_of_fmap. eauto.
  - rewrite filter_cons_False; [by apply IH|].
    intros Heq. apply Hn. rewrite Heq. apply list_elem_of_fmap. eauto.
Qed.

(** X8: an active alert fires at the first call whose quotes satisfy it.
    If none of the readings of [pre] satisfies alert [a], the next reading
    does with price [p], and that call returns, then over the whole
    sequence the events of [a] are the single event of that call, with
    price [p] and its time, whatever readings follow. *)
Theorem alert_fires_at_first_crossing pre now qs post m a p :
  NoDup (ids (db m)) → a ∈ db m → is_active a →
  Forall (λ tick : Z * quotes, ∀ p', evaluate tick.2 a ≠ Fire p') pre →
  evaluate qs a = Fire p →
  (∀ e, (check_alerts now qs (run_checks pre m).1).2 ≠ Exc e) →
  filter (λ e, ev_id e = id a) (all_events (pre ++ (now, qs) :: post) m) =
    [alert_msg now a p].
Proof.
  intros Hnd Ha Hact Hpre Hfire Hret.
  destruct (quiet_alert_stays_run pre m a Hnd Ha Hpre) as (Hnd1 & Ha1 & _).
  apply (filter_fired_single _ (alert_msg now a p)); [by apply run_checks_inv|].
  rewrite (proj2 (run_checks_app pre _ m)), run_checks_cons.
  apply elem_of_app. right. apply elem_of_app. left.
  destruct (check_alerts_cases now qs (run_checks pre m).1) as [[e Hc]|[q Hc]].
  - exfalso. apply (Hret e). by rewrite Hc.
  - rewrite Hc. cbn [snd returned]. unfold fires, firing. apply list_elem_of_omap.
    exists a. split; [by apply get_active_alerts_elem|]. by rewrite Hfire.
Qed.

Lemma alert_fires_at_first_crossing_witness :
  filter (λ e, ev_id e = id above_1000)
         (all_events ([reading 1 995] ++ reading 2 1001 :: [reading 3 1002; reading 4 999])
                     (mkManager [above_1000] [])) =
    [alert_msg 2 above_1000 1001].
Proof.
  apply alert_fires_at_first_crossing.
  - apply NoDup_singleton.
  - apply list_elem_of_singleton. reflexivity.
  - reflexivity.
  - repeat constructor. intros p'. vm_compute. discriminate.
  - vm_compute. reflexivity.
  - intros e. vm_compute. discriminate.
Defined.

End AlertManagerMoreSpec.

(** ** Connecting and disconnecting *)

Module SessionMoreSpec.
Import ShioajiWorker ShioajiWorkerSpec SessionMore.

(** X9: [disconnect()] always leaves the worker disconnected with no
    subscription and its session object, cache and retry counter as they
    were; it logs out exactly when there is a session and the worker was
    connected; and a second [disconnect()] changes nothing and logs out
    nowhere. *)
Theorem disconnect_is_idempotent w :
  is_connected (disconnect w).1 = false ∧
  subscribed_stocks (disconnect w).1 = ∅ ∧
  api (disconnect w).1 = api w ∧ cache (disconnect w).1 = cache w ∧
  _retry_count (disconnect w).1 = _retry_count w ∧
  ((disconnect w).2 = [Logout] ↔ is_Some (api w) ∧ is_connected w = true) ∧
  ((disconnect w).2 = [] ↔ ¬ (is_Some (api w) ∧ is_connected w = true)) ∧
  disconnect (disconnect w).1 = ((disconnect w).1, []).
Proof.
  assert ((disconnect w).2 = if bool_decide (is_Some (api w)) && is_connected w
                             then [Logout] else []) as Hfx by done.
  split; [done|]. split; [done|]. split; [done|]. split; [done|]. split; [done|].
  split; [|split].
  - rewrite Hfx. split.
    + intros Hl. destruct (bool_decide (is_Some (api w))) eqn:Ha; [|done].
      apply bool_decide_eq_true in Ha. by destruct (is_connected w).
    + intros [Ha ->]. by rewrite bool_decide_true.
  - rewrite Hfx. split.
    + intros Hl [Ha Hc]. by rewrite bool_decide_true, Hc in Hl.
    + intros Hn. destruct (bool_decide (is_Some (api w))) eqn:Ha; [|done].
      apply bool_decide_eq_true in Ha. destruct (is_connected w); [|done].
      exfalso. by apply Hn.
  - unfold disconnect. cbn. by rewrite andb_false_r.
Qed.

(** X10: what [connect()] returns is whether the worker is connected
    afterwards; it logs in at most once and waits at most 20 seconds for
    the contracts; on a connected worker it does nothing at all; and when
    it fails the retry counter is the one it found. *)
Theorem connect_reports_the_connection o w :
  (connect o w).2 = is_connected (connect o w).1.1 ∧
  (logins (connect o w).1.2 ≤ 1)%nat ∧
  0 ≤ total_sleep (connect o w).1.2 ≤ 20 ∧
  (is_connected w = true → connect o w = (w, [], true)) ∧
  ((connect o w).2 = false → _retry_count (connect o w).1.1 = _retry_count w).
Proof.
  assert (∀ n : nat, total_sleep (Login :: replicate n (Sleep 1)) = Z.of_nat n) as Hsum.
  { intros n. unfold total_sleep, sleeps. cbn. induction n as [|n IH]; cbn; [done|].
    rewrite IH. lia. }
  assert (∀ n : nat, logins (Login :: replicate n (Sleep 1)) = 1%nat) as Hlog.
  { intros n. unfold logins. cbn. f_equal. by induction n. }
  unfold connect. destruct (is_connected w) eqn:Hc.
  - cbn [fst snd]. rewrite Hc. split; [done|]. split; [cbn; lia|]. split; [done|].
    split; [done|]. done.
  - destruct o as [|a|a polls]; cbn [fst snd is_connected set_connected set_api
                                       set_retry_count _retry_count].
    + split; [done|]. split; [cbn; lia|]. split; [done|]. split; [done|]. done.
    + split; [done|]. split; [cbn; lia|]. split; [done|]. split; [done|]. done.
    + split; [done|]. rewrite Hsum, Hlog. split; [lia|]. split; [lia|]. split; done.
Qed.

Lemma disconnect_is_idempotent_witness :
  (disconnect worker_898).2 = [Logout].
Proof.
  apply (proj1 (proj2 (proj2 (proj2 (proj2 (proj2 (disconnect_is_idempotent worker_898))))))).
  split; [by eexists|reflexivity].
Defined.

Lemma connect_reports_the_connection_witness :
  connect (LoginOk source_898 3) worker_898 = (worker_898, [], true).
Proof.
  apply (proj1 (proj2 (proj2 (proj2
           (connect_reports_the_connection (LoginOk source_898 3) worker_898))))).
  reflexivity.
Defined.

Lemma total_sleep_app fx1 fx2 : total_sleep (fx1 ++ fx2) = total_sleep fx1 + total_sleep fx2.
Proof.
  unfold total_sleep. rewrite sleeps_app. induction (sleeps fx1) as [|x l IH]; cbn; lia.
Qed.

(** X11: a [reconnect()] that gets through with the counter at [k < 10]
    sleeps the [k]-th delay of the table, returns True, leaves the worker
    connected with the counter back at 0, and the failing calls that follow
    start again from the head of the table. *)
Theorem successful_reconnect_restarts_backoff a polls os w (k : nat) :
  _retry_count w = Z.of_nat k → (k < 10)%nat → Forall fails os →
  (reconnect (LoginOk a polls) w).2 = true ∧
  is_connected (reconnect (LoginOk a polls) w).1.1 = true ∧
  _retry_count (reconnect (LoginOk a polls) w).1.1 = 0 ∧
  sleeps (reconnect (LoginOk a polls) w).1.2 =
    nth k _retry_delays 0 :: replicate (polls `min` 20)%nat 1 ∧
  sleeps (reconnects os (reconnect (LoginOk a polls) w).1.1).1.2 =
    take (length os) _retry_delays.
Proof.
  intros Hk Hk10 Hos.
  assert (∀ n : nat, sleeps (Login :: replicate n (Sleep 1)) = replicate n 1) as Hrep.
  { intros n. unfold sleeps. cbn. induction n as [|n IH]; cbn; [done|]. by rewrite IH. }
  assert (reconnect (LoginOk a polls) w =
          (set_retry_count 0 (set_connected true (set_api a
             (set_retry_count (_retry_count w + 1) (disconnect w).1))),
           (disconnect w).2 ++ Sleep (nth k _retry_delays 0)
             :: Login :: replicate (polls `min` 20)%nat (Sleep 1), true)) as Hrec.
  { unfold reconnect. destruct (disconnect w) as [w1 fx1] eqn:Hd.
    pose proof (disconnect_fields w) as [Hc1 Hr1]. rewrite Hd in Hc1, Hr1. cbn [fst snd] in *.
    cbn [_retry_count set_retry_count]. rewrite Hr1, Hk.
    destruct (Z.ltb_spec _max_retry (Z.of_nat k + 1)) as [Hlt|Hge];
      [unfold _max_retry in Hlt; lia|].
    unfold connect. cbn [is_connected set_retry_count]. rewrite Hc1.
    rewrite Z.min_l by (cbn; lia). by rewrite Nat2Z.id. }
  rewrite Hrec. cbn [fst snd is_connected _retry_count set_retry_count set_connected].
  split; [done|]. split; [done|]. split; [done|]. split.
  - rewrite sleeps_app, (proj1 (disconnect_quiet w)). cbn [app].
    change (Sleep ?d :: ?l) with ([Sleep d] ++ l). rewrite sleeps_app, Hrep. done.
  - apply (reconnects_fail os _ 0%nat); done.
Qed.

Lemma successful_reconnect_restarts_backoff_witness :
  sleeps (reconnects [CtorRaises; CtorRaises]
            (reconnect (LoginOk source_898 0) (set_retry_count 3 worker_1)).1.1).1.2 = [5; 10].
Proof.
  apply (successful_reconnect_restarts_backoff source_898 0 [CtorRaises; CtorRaises]
           (set_retry_count 3 worker_1) 3).
  - reflexivity.
  - lia.
  - repeat constructor.
Defined.

(** X12: the failing [reconnect()] calls that follow a counter of 0 sleep
    1020 seconds between them at most, and exactly 1020 once ten of them
    have been made. *)
Theorem backoff_sleeps_1020_at_most os w :
  _retry_count w = 0 → Forall fails os →
  0 ≤ total_sleep (reconnects os w).1.2 ≤ 1020 ∧
  ((10 ≤ length os)%nat → total_sleep (reconnects os w).1.2 = 1020).
Proof.
  intros Hw Hos. unfold total_sleep.
  rewrite (proj1 (reconnects_fail os w 0%nat Hw Hos)). cbn [drop].
  generalize (length os) as n. intros n.
  do 10 (destruct n as [|n]; [cbn; split; [lia|intros; lia]|]).
  cbn. rewrite take_nil. cbn. split; [lia|done].
Qed.

Lemma backoff_sleeps_1020_at_most_witness :
  total_sleep (reconnects (replicate 12 CtorRaises) worker_1).1.2 = 1020.
Proof.
  apply (backoff_sleeps_1020_at_most (replicate 12 CtorRaises) worker_1).
  - reflexivity.
  - repeat constructor.
  - cbn. lia.
Defined.

End SessionMoreSpec.

(** ** Session names and the shipped trading hours *)

Module TradingMoreSpec.
Import ShioajiWorker ShioajiWorkerSpec.

Lemma first_session_first_match sessions now :
  Forall well_formed sessions →
  (first_session sessions now = Ret None ∧ Forall (λ w, ¬ within_closed now w) sessions) ∨
  (∃ pre w post, sessions = pre ++ w :: post ∧ first_session sessions now = Ret (Some w.1) ∧
                 within_closed now w ∧ Forall (λ w', ¬ within_closed now w') pre).
Proof.
  induction sessions as [|[name [a b]] sessions IH]; intros Hwf.
  - left. split; [done|constructor].
  - apply Forall_cons in Hwf as [(t1 & t2 & Hb) Hwf]. cbn in Hb.
    cbn [first_session]. rewrite (in_session_bounds now a b t1 t2 Hb). cbn.
    destruct (time_le t1 now && time_le now t2) eqn:E.
    + right. exists [], (name, (a, b)), sessions. split; [done|]. split; [done|].
      split; [|constructor]. exists t1, t2. by apply andb_true_iff in E as [? ?].
    + assert (¬ within_closed now (name, (a, b))) as Hout.
      { intros (t1' & t2' & Hb' & H1 & H2). cbn in Hb'. rewrite Hb in Hb'.
        injection Hb' as <- <-. by rewrite H1, H2 in E. }
      destruct (IH Hwf) as [[Hn Hall]|(pre & w & post & -> & Hf & Hw & Hpre)].
      * left. split; [done|]. by constructor.
      * right. exists ((name, (a, b)) :: pre), w, post. split; [done|]. split; [done|].
        split; [done|]. by constructor.
Qed.

(** X13: for a session table whose entries are all well formed,
    [get_session_name()] answers the name of the first session, in the
    order of the table, whose closed interval holds the time, and "closed"
    when none does; so where two sessions share a boundary the earlier one
    is named, and "closed" is answered whenever [is_trading_time()] is
    False. *)
Theorem session_name_is_first_match sessions now :
  Forall well_formed sessions →
  ((get_session_name sessions now = Ret "closed" ∧
    is_trading_time sessions now = Ret false ∧
    Forall (λ w, ¬ within_closed now w) sessions) ∨
   (∃ pre w post, sessions = pre ++ w :: post ∧
                  get_session_name sessions now = Ret w.1 ∧
                  is_trading_time sessions now = Ret true ∧
                  within_closed now w ∧ Forall (λ w', ¬ within_closed now w') pre)).
Proof.
  intros Hwf. unfold get_session_name, is_trading_time.
  destruct (first_session_first_match sessions now Hwf)
    as [[Hn Hall]|(pre & w & post & Hs & Hf & Hw & Hpre)].
  - left. rewrite Hn. by cbn.
  - right. exists pre, w, post. rewrite Hf. cbn. done.
Qed.

Lemma session_name_is_first_match_witness :
  (get_session_name TRADING_SESSIONS (mkTime 9 0 0 0) = Ret "closed" ∧
   is_trading_time TRADING_SESSIONS (mkTime 9 0 0 0) = Ret false ∧
   Forall (λ w, ¬ within_closed (mkTime 9 0 0 0) w) TRADING_SESSIONS) ∨
  (∃ pre w post, TRADING_SESSIONS = pre ++ w :: post ∧
                 get_session_name TRADING_SESSIONS (mkTime 9 0 0 0) = Ret w.1 ∧
                 is_trading_time TRADING_SESSIONS (mkTime 9 0 0 0) = Ret true ∧
                 within_closed (mkTime 9 0 0 0) w ∧
                 Forall (λ w', ¬ within_closed (mkTime 9 0 0 0) w') pre).
Proof.
  apply session_name_is_first_match. apply TRADING_SESSIONS_well_formed.
Defined.

Lemma time_le_spec a b :
  time_le a b = true ↔
  hour a < hour b ∨ hour a = hour b ∧
    (minute a < minute b ∨ minute a = minute b ∧
       (second a < second b ∨ second a = second b ∧ microsecond a ≤ microsecond b)).
Proof.
  unfold time_le.
  repeat (match goal with |- context [?x <? ?y] => destruct (Z.ltb_spec x y) end);
    try (split; [intros _; lia|done]); try (split; [done|lia]).
  rewrite Z.leb_le. lia.
Qed.

(** X14: with the session table of config.py, [is_trading_time()] never
    raises and is True exactly from 08:30:00 to 13:30:00 and from 13:40:00
    to 14:30:00, both ends included; the ten minutes in between are
    outside. *)
Theorem shipped_trading_hours now :
  is_trading_time TRADING_SESSIONS now =
    Ret (time_le (mkTime 8 30 0 0) now && time_le now (mkTime 13 30 0 0)
         || time_le (mkTime 13 40 0 0) now && time_le now (mkTime 14 30 0 0)).
Proof.
  unfold is_trading_time, TRADING_SESSIONS. cbn [first_session].
  rewrite (in_session_bounds now "08:30" "09:00" (mkTime 8 30 0 0) (mkTime 9 0 0 0) eq_refl).
  rewrite (in_session_bounds now "09:00" "13:30" (mkTime 9 0 0 0) (mkTime 13 30 0 0) eq_refl).
  rewrite (in_session_bounds now "13:40" "14:30" (mkTime 13 40 0 0) (mkTime 14 30 0 0) eq_refl).
  destruct (time_le (mkTime 8 30 0 0) now) eqn:A1;
  destruct (time_le now (mkTime 9 0 0 0)) eqn:B1;
  destruct (time_le (mkTime 9 0 0 0) now) eqn:A2;
  destruct (time_le now (mkTime 13 30 0 0)) eqn:B2;
  destruct (time_le (mkTime 13 40 0 0) now) eqn:A3;
  destruct (time_le now (mkTime 14 30 0 0)) eqn:B3; cbn; try reflexivity; exfalso;
  repeat match goal with
  | H : time_le _ _ = true |- _ => apply time_le_spec in H; cbn in H
  | H : time_le _ _ = false |- _ =>
      apply (not_true_iff_false _) in H; rewrite time_le_spec in H; cbn in H
  end; lia.
Qed.

End TradingMoreSpec.

(** ** What a fetch does to the cache *)

Module CacheMoreSpec.
Import ShioajiWorker ShioajiWorkerSpec CacheMore.

Lemma table_at_lookup h l t : table_at h l = Some t ↔ h !! l = Some (Table t).
Proof.
  unfold table_at. destruct (h !! l) as [[d|t']|]; split; try done; by intros [= ->].
Qed.

Lemma lookup_mutate_ne l l' mu h : l ≠ l' → mutate l mu h !! l' = h !! l'.
Proof. intros H. unfold mutate. by rewrite lookup_alter_ne. Qed.

Lemma lookup_mutate_entry l k d h t :
  h !! l = Some (Table t) → mutate l (SetEntry k d) h !! l = Some (Table (<[k := d]> t)).
Proof. intros H. unfold mutate. by rewrite lookup_alter_eq, H. Qed.

Lemma dom_mutate l mu h : dom (mutate l mu h) = dom h.
Proof. unfold mutate. apply dom_alter_L. Qed.

Section FetchSnapshots.
Variable fdiv : Q → Q → Q.
Variable round2 : Q → Q.

Lemma store_snapshots_step now now_str contracts valid_ids results i s rest h w :
  store_snapshots fdiv round2 now now_str contracts valid_ids results i (s :: rest) (h, w) =
  match valid_ids !! i, contracts !! i with
  | Some sid, Some c =>
      match make_data fdiv round2 now_str sid c s with
      | Ret data =>
          let d := fresh (dom h) in
          store_snapshots fdiv round2 now now_str contracts valid_ids results (S i) rest
            (mutate (cache w) (SetEntry sid d)
               (mutate results (SetEntry sid d) (<[d := Snapshot data]> h)),
             set_last_update now w)
      | Exc e => (Exc e, (h, w))
      end
  | _, _ => (Exc (Raise "IndexError"), (h, w))
  end.
Proof.
  cbn [store_snapshots]. rewrite M_bind_unfold. unfold index at 1.
  destruct (valid_ids !! i) as [sid|]; [|done]. cbn.
  rewrite M_bind_unfold. unfold index at 1.
  destruct (contracts !! i) as [c|]; [|done]. cbn.
  rewrite M_bind_unfold. unfold lift at 1.
  destruct (make_data fdiv round2 now_str sid c s) as [data|e]; [|done].
  reflexivity.
Qed.

Lemma make_data_stock_id now_str sid c s data :
  make_data fdiv round2 now_str sid c s = Ret data → data !! "stock_id" = Some (VStr sid).
Proof.
  unfold make_data. intros H.
  repeat match type of H with
  | (mbind _ ?r) = _ => destruct r; cbn in H; [|done]
  | (?r ≫= _) = _ => destruct r; cbn in H; [|done]
  end.
  injection H as <-. cbn. apply lookup_insert_eq.
Qed.

(** The loop keeps its invariant, however it ends. *)
Lemma store_snapshots_loop now now_str contracts valid_ids results h1 w0 t0 snaps :
  results ≠ cache w0 →
  ∀ i h w tr tc,
    loop_inv now h1 w0 t0 results valid_ids h w tr tc →
    ∃ tr' tc',
      loop_inv now h1 w0 t0 results valid_ids
        (store_snapshots fdiv round2 now now_str contracts valid_ids results i snaps (h, w)).2.1
        (store_snapshots fdiv round2 now now_str contracts valid_ids results i snaps (h, w)).2.2
        tr' tc'.
Proof.
  intros Hrc. induction snaps as [|s snaps IH]; intros i h w tr tc J.
  { by exists tr, tc. }
  rewrite store_snapshots_step.
  destruct (valid_ids !! i) as [sid|] eqn:Hsid; [|by exists tr, tc].
  destruct (contracts !! i) as [c|]; [|by exists tr, tc].
  destruct (make_data fdiv round2 now_str sid c s) as [data|e] eqn:Hdata; [|by exists tr, tc].
  cbn zeta. apply IH with (tr := <[sid := fresh (dom h)]> tr) (tc := <[sid := fresh (dom h)]> tc).
  destruct J as (Hr & Hc & Hw & Hdom & Hold & Hkeep & Hkeys & Hnew & Hupd).
  pose proof Hw as (Hw1 & Hw2 & Hw3 & Hw4 & Hw5).
  set (d := fresh (dom h)).
  assert (d ∉ dom h) as Hd by apply is_fresh.
  apply table_at_lookup in Hr, Hc.
  assert (d ≠ results) as Hdr by (intros ->; apply Hd, elem_of_dom; eauto).
  assert (d ≠ cache w0) as Hdc by (intros ->; apply Hd, elem_of_dom; eauto).
  rewrite Hw3.
  assert (mutate results (SetEntry sid d) (<[d := Snapshot data]> h) !! results =
          Some (Table (<[sid := d]> tr))) as Hr'.
  { apply lookup_mutate_entry. by rewrite lookup_insert_ne. }
  assert (mutate results (SetEntry sid d) (<[d := Snapshot data]> h) !! cache w0 =
          Some (Table tc)) as Hc'.
  { rewrite lookup_mutate_ne by done. by rewrite lookup_insert_ne. }
  assert (∀ l, l ≠ cache w0 → l ≠ results → l ≠ d →
               mutate (cache w0) (SetEntry sid d)
                 (mutate results (SetEntry sid d) (<[d := Snapshot data]> h)) !! l = h !! l)
    as Hother.
  { intros l H1 H2 H3. rewrite !lookup_mutate_ne by done. by rewrite lookup_insert_ne. }
  split; [|split; [|split; [|split; [|split; [|split; [|split; [|split]]]]]]].
  - apply table_at_lookup. rewrite lookup_mutate_ne by done. exact Hr'.
  - apply table_at_lookup. by apply lookup_mutate_entry.
  - done.
  - rewrite !dom_mutate, dom_insert_L. set_solver.
  - intros l Hl H1 H2. rewrite Hother; [by apply Hold|done|done|].
    intros ->. apply Hd. set_solver.
  - intros sid' Hn. rewrite dom_insert in Hn.
    assert (sid' ≠ sid) by set_solver. rewrite lookup_insert_ne by done.
    apply Hkeep. set_solver.
  - rewrite dom_insert. apply list_elem_of_lookup_2 in Hsid. set_solver.
  - intros sid' d' Hl. destruct (decide (sid = sid')) as [<-|Hne].
    + rewrite lookup_insert_eq in Hl. injection Hl as <-. rewrite lookup_insert_eq.
      split; [done|]. split; [set_solver|]. exists data. split.
      * rewrite !lookup_mutate_ne by done. by rewrite lookup_insert_eq.
      * by eapply make_data_stock_id.
    + rewrite lookup_insert_ne in Hl by done. rewrite lookup_insert_ne by done.
      destruct (Hnew _ _ Hl) as (Htc & Hd1 & data' & Hh & Hs).
      split; [done|]. split; [done|]. exists data'. split; [|done].
      rewrite Hother; [done| | |].
      * intros ->. congruence.
      * intros ->. congruence.
      * intros ->. apply Hd, elem_of_dom. eauto.
  - by right.
Qed.

Lemma same_session_refl w : same_session w w.
Proof. by repeat split. Qed.

(** A new empty table on top of a state keeps the frame. *)
Lemma fetch_frame_new stock_ids h w t0 h' w' tc :
  fetch_frame stock_ids h w t0 h' w' tc →
  fetch_frame stock_ids h w t0 (<[fresh (dom h') := Table ∅]> h') w' tc.
Proof.
  intros (Hc & Hw & Hdom & Hold & Hkeep & Hd0 & Hent).
  assert (fresh (dom h') ∉ dom h') as Hf by apply is_fresh.
  apply table_at_lookup in Hc.
  split; [|split; [done|split; [|split; [|split; [done|split; [done|]]]]]].
  - apply table_at_lookup. rewrite lookup_insert_ne; [done|].
    intros Heq. apply Hf. rewrite Heq. apply elem_of_dom. eauto.
  - rewrite dom_insert_L. set_solver.
  - intros l Hl Hne. rewrite lookup_insert_ne; [by apply Hold|].
    intros <-. apply Hf. set_solver.
  - intros sid d Hd. destruct (Hent sid d Hd) as [?|(Hn & data & Hs & Hid)]; [by left|].
    right. split; [done|]. exists data. split; [|done].
    unfold snapshot_at in *. rewrite lookup_insert_ne; [done|].
    intros <-. apply not_elem_of_dom in Hf. by rewrite Hf in Hs.
Qed.

Lemma fetch_frame_refl stock_ids h w t0 :
  table_at h (cache w) = Some t0 → fetch_frame stock_ids h w t0 h w t0.
Proof.
  intros H. split; [done|]. split; [apply same_session_refl|].
  split; [done|]. split; [done|]. split; [done|]. split; [done|]. intros sid d Hd. by left.
Qed.

Lemma fetch_returns_new now h w h' w' tc :
  dom h ⊆ dom h' →
  fetch_returns now h w (fresh (dom h')) (<[fresh (dom h') := Table ∅]> h') w' ∅ tc.
Proof.
  intros Hdom. assert (fresh (dom h') ∉ dom h') as Hf by apply is_fresh.
  split; [|split; [set_solver|split; [|done]]].
  - apply table_at_lookup, lookup_insert_eq.
  - intros sid d H. by rewrite lookup_empty in H.
Qed.

(** What every call establishes. *)
Lemma fetch_snapshots_post now now_str stock_ids h w t0 :
  table_at h (cache w) = Some t0 →
  ∃ r h' w' tr tc,
    fetch_snapshots fdiv round2 now now_str stock_ids (h, w) = (Ret r, (h', w')) ∧
    fetch_frame stock_ids h w t0 h' w' tc ∧
    fetch_returns now h w r h' w' tr tc.
Proof.
  intros Ht0.
  assert (∀ h' w' tc, fetch_frame stock_ids h w t0 h' w' tc →
            ∃ r h'' tr,
              new (Table ∅) (h', w') = (Ret r, (h'', w')) ∧
              fetch_frame stock_ids h w t0 h'' w' tc ∧
              fetch_returns now h w r h'' w' tr tc) as Hnew.
  { intros h' w' tc Hfr. exists (fresh (dom h')), (<[fresh (dom h') := Table ∅]> h'), ∅.
    split; [done|]. split; [by apply fetch_frame_new|].
    apply fetch_returns_new. by destruct Hfr as (_ & _ & ? & _). }
  pose proof (fetch_frame_refl stock_ids h w t0 Ht0) as Hrefl.
  unfold fetch_snapshots.
  destruct (is_connected w) eqn:Hconn;
    [|destruct (Hnew h w t0 Hrefl) as (r & h' & tr & Hn & ? & ?); by exists r, h', w, tr, t0].
  destruct (api w) as [a|] eqn:Hapi;
    [|destruct (Hnew h w t0 Hrefl) as (r & h' & tr & Hn & ? & ?); by exists r, h', w, tr, t0].
  unfold try_except, fetch_body.
  destruct (resolve a stock_ids) as [contracts valid_ids] eqn:Hres.
  assert (∀ sid, sid ∈ valid_ids → sid ∈ stock_ids) as Hvalid.
  { intros sid Hs. apply (resolve_valid a stock_ids sid). by rewrite Hres. }
  destruct contracts as [|c contracts].
  { destruct (Hnew h w t0 Hrefl) as (r & h' & tr & Hn & ? & ?). rewrite Hn.
    by exists r, h', w, tr, t0. }
  rewrite M_bind_unfold. unfold lift at 1.
  destruct (snapshots a (c :: contracts)) as [snaps|e].
  2:{ destruct (Hnew h w t0 Hrefl) as (r & h' & tr & Hn & ? & ?). rewrite Hn.
      by exists r, h', w, tr, t0. }
  rewrite M_bind_unfold. unfold new at 1, alloc. rewrite M_bind_unfold.
  set (results := fresh (dom h)). set (h1 := <[results := Table ∅]> h).
  assert (results ∉ dom h) as Hfresh by apply is_fresh.
  pose proof Ht0 as Hc0. apply table_at_lookup in Hc0.
  assert (results ≠ cache w) as Hrc.
  { intros Heq. apply Hfresh. rewrite Heq. apply elem_of_dom. eauto. }
  assert (loop_inv now h1 w t0 results valid_ids h1 w ∅ t0) as J0.
  { unfold h1. split; [apply table_at_lookup, lookup_insert_eq|].
    split; [apply table_at_lookup; by rewrite lookup_insert_ne|].
    split; [apply same_session_refl|]. split; [done|]. split; [done|]. split; [done|].
    split; [set_solver|]. split; [|by left].
    intros sid d H. by rewrite lookup_empty in H. }
  destruct (store_snapshots_loop now now_str (c :: contracts) valid_ids results h1 w t0 snaps
              Hrc 0%nat h1 w ∅ t0 J0) as (tr & tc & J).
  destruct (store_snapshots fdiv round2 now now_str (c :: contracts) valid_ids results 0 snaps
              (h1, w)) as [res [h2 w2]]. cbn [fst snd] in J.
  destruct J as (Hr & Hc & Hw & Hdom & Hold & Hkeep & Hkeys & Hnw & Hupd).
  assert (dom h ⊆ dom h1) as Hd01 by (unfold h1; rewrite dom_insert_L; set_solver).
  assert (fetch_frame stock_ids h w t0 h2 w2 tc) as Hfr.
  { split; [done|]. split; [done|]. split; [set_solver|]. split; [|split].
    - intros l Hl Hne. rewrite Hold; [|set_solver|done|].
      + unfold h1. rewrite lookup_insert_ne; [done|]. intros ->. done.
      + intros ->. done.
    - intros sid Hs. apply Hkeep. intros Hin. apply Hs, Hvalid.
      apply Hkeys in Hin. by apply elem_of_list_to_set in Hin.
    - split.
      + intros sid Hs. apply elem_of_dom. destruct (tr !! sid) as [d|] eqn:Hd.
        * destruct (Hnw _ _ Hd) as (-> & _). by eexists.
        * rewrite Hkeep by (by apply not_elem_of_dom). by apply elem_of_dom.
      + intros sid d Hd. destruct (tr !! sid) as [d'|] eqn:Htr.
        * destruct (Hnw _ _ Htr) as (Htc & Hd1 & data & Hh & Hs). right.
          assert (d = d') as -> by congruence. split; [set_solver|].
          exists data. split; [|done]. unfold snapshot_at. by rewrite Hh.
        * left. rewrite <- Hkeep; [done|]. by apply not_elem_of_dom. }
  destruct res as [[]|e].
  - exists results, h2, w2, tr, tc. split; [done|]. split; [done|].
    split; [done|]. split; [done|]. split.
    + intros sid d Hd. destruct (Hnw _ _ Hd) as (Htc & Hd1 & data & Hh & Hs).
      split; [done|]. split; [set_solver|]. exists data. split; [|done].
      unfold snapshot_at. by rewrite Hh.
    + intros Hne. by destruct Hupd as [[-> _]|?].
  - destruct (Hnew h2 w2 tc Hfr) as (r & h' & tr' & Hn & ? & ?). rewrite Hn.
    by exists r, h', w2, tr', tc.
Qed.

(** X15: [fetch_snapshots] only adds to the heap.  Whatever the batch and
    however the call ends, every object that existed stays as it was, the
    cache table apart: a quote a reader holds is never written to, and of
    the worker only [last_update] can change. *)
Theorem fetch_snapshots_only_adds now now_str stock_ids h w t0 :
  table_at h (cache w) = Some t0 →
  same_session w (fetch_snapshots fdiv round2 now now_str stock_ids (h, w)).2.2 ∧
  (∀ l, l ∈ dom h → l ≠ cache w →
        (fetch_snapshots fdiv round2 now now_str stock_ids (h, w)).2.1 !! l = h !! l) ∧
  (∀ r data, snapshot_at h r = Some data →
        snapshot_at (fetch_snapshots fdiv round2 now now_str stock_ids (h, w)).2.1 r = Some data).
Proof.
  intros Ht0.
  destruct (fetch_snapshots_post now now_str stock_ids h w t0 Ht0)
    as (r & h' & w' & tr & tc & -> & (Hc & Hw & Hdom & Hold & _) & _). cbn [fst snd].
  split; [done|]. split; [done|].
  intros l data Hs. unfold snapshot_at in *.
  destruct (h !! l) as [o|] eqn:Hl; [|done].
  rewrite Hold; [by rewrite Hl| |].
  - apply elem_of_dom. eauto.
  - intros ->. apply table_at_lookup in Ht0. rewrite Ht0 in Hl. by injection Hl as <-.
Qed.

(** X16: a cache whose entries all refer to quotes stays so across
    [fetch_snapshots]; a symbol outside the batch reads exactly as before,
    and a symbol the cache held is never dropped from it, whether the batch
    succeeds or fails. *)
Theorem fetch_snapshots_keeps_the_cache now now_str stock_ids h w :
  cache_ok h w →
  let st' := (fetch_snapshots fdiv round2 now now_str stock_ids (h, w)).2 in
  cache_ok st'.1 st'.2 ∧
  (∀ sid, sid ∉ stock_ids → read_one sid st' = read_one sid (h, w)) ∧
  (∀ sid, is_Some (read_one sid (h, w)) → is_Some (read_one sid st')).
Proof.
  intros (t0 & Ht0 & Hok).
  destruct (fetch_snapshots_post now now_str stock_ids h w t0 Ht0)
    as (r & h' & w' & tr & tc & -> & (Hc & Hw & Hdom & Hold & Hkeep & Hd0 & Hent) & _).
  cbn [fst snd]. destruct Hw as (_ & _ & Hcw & _).
  assert (∀ sid d, t0 !! sid = Some d → snapshot_at h' d = snapshot_at h d) as Hsame.
  { intros sid d Hd. destruct (Hok sid d Hd) as [data Hs]. unfold snapshot_at in *.
    destruct (h !! d) as [o|] eqn:Hl; [|done]. rewrite Hold; [by rewrite Hl| |].
    - apply elem_of_dom. eauto.
    - intros ->. apply table_at_lookup in Ht0. rewrite Ht0 in Hl. by injection Hl as <-. }
  assert (∀ sid d, tc !! sid = Some d → is_Some (snapshot_at h' d)) as Hok'.
  { intros sid d Hd. destruct (Hent sid d Hd) as [H0|(_ & data & Hs & _)]; [|by eexists].
    rewrite (Hsame sid d H0). by eapply Hok. }
  split; [|split].
  - exists tc. rewrite Hcw. by split.
  - intros sid Hs. rewrite !read_one_eq, Hcw, Hc, Ht0. cbn. rewrite (Hkeep sid Hs).
    destruct (t0 !! sid) as [d|] eqn:Hd; [|done]. cbn. by eapply Hsame.
  - intros sid. rewrite !read_one_eq, Hcw, Hc, Ht0. cbn.
    destruct (t0 !! sid) as [d|] eqn:Hd; [|by intros [? ?]]. intros _.
    assert (sid ∈ dom tc) as [d' Hd']%elem_of_dom by (apply Hd0, elem_of_dom; eauto).
    rewrite Hd'. cbn. by eapply Hok'.
Qed.

(** X17: every entry of the table [fetch_snapshots] returns is a new quote
    carrying its symbol, and the cache holds that very quote for the symbol
    when the call is over - the latest fetch wins; a non-empty result sets
    [last_update] to the time of the call. *)
Theorem fetched_quotes_are_cached now now_str stock_ids h w t0 :
  table_at h (cache w) = Some t0 →
  ∃ r h' w' tr,
    fetch_snapshots fdiv round2 now now_str stock_ids (h, w) = (Ret r, (h', w')) ∧
    table_at h' r = Some tr ∧
    (∀ sid d, tr !! sid = Some d →
       (d ∉ dom h) ∧
       get_stock_cache sid (h', w') = (Ret (Some d), (h', w')) ∧
       ∃ data, read_one sid (h', w') = Some data ∧ snapshot_at h' d = Some data ∧
               data !! "stock_id" = Some (VStr sid)) ∧
    (tr ≠ ∅ → last_update w' = Some now).
Proof.
  intros Ht0.
  destruct (fetch_snapshots_post now now_str stock_ids h w t0 Ht0)
    as (r & h' & w' & tr & tc & Hf & (Hc & Hw & _) & (Hr & _ & Hnew & Hupd)).
  destruct Hw as (_ & _ & Hcw & _).
  exists r, h', w', tr. split; [done|]. split; [done|]. split; [|done].
  intros sid d Hd. destruct (Hnew sid d Hd) as (Htc & Hn & data & Hs & Hid).
  split; [done|]. split.
  - unfold get_stock_cache. by rewrite Hcw, Hc, Htc.
  - exists data. rewrite read_one_eq, Hcw, Hc. cbn. rewrite Htc. cbn. done.
Qed.

End FetchSnapshots.

Lemma cache_ok_cached_905 : cache_ok cached_905 worker_898.
Proof.
  exists {[ "2330" := 2%positive ]}. split; [reflexivity|].
  intros sid r Hr. apply lookup_singleton_Some in Hr as [_ <-]. by eexists.
Qed.

Lemma fetch_snapshots_only_adds_witness :
  snapshot_at (fetch_snapshots Qdiv (λ q, q) 7 "09:00:15" ["0000"; "2330"]
                 (cached_905, worker_898)).2.1 2%positive = Some {[ "price" := VNum 905 ]}.
Proof.
  apply (proj2 (proj2 (fetch_snapshots_only_adds Qdiv (λ q, q) 7 "09:00:15" ["0000"; "2330"]
                         cached_905 worker_898 {[ "2330" := 2%positive ]} eq_refl))).
  reflexivity.
Defined.

Lemma fetch_snapshots_keeps_the_cache_witness :
  read_one "2317" (fetch_snapshots Qdiv (λ q, q) 7 "09:00:15" ["0000"; "2330"]
                     (cached_905, worker_898)).2 = read_one "2317" (cached_905, worker_898).
Proof.
  apply (proj1 (proj2 (fetch_snapshots_keeps_the_cache Qdiv (λ q, q) 7 "09:00:15"
                         ["0000"; "2330"] cached_905 worker_898 cache_ok_cached_905))).
  intros H. repeat (apply elem_of_cons in H as [H|H]; [discriminate|]). by apply elem_of_nil in H.
Defined.

Lemma fetched_quotes_are_cached_witness :
  ∃ r h' w' tr,
    fetch_snapshots Qdiv (λ q, q) 7 "09:00:15" ["0000"; "2330"] (cached_905, worker_898) =
      (Ret r, (h', w')) ∧
    table_at h' r = Some tr ∧
    (∀ sid d, tr !! sid = Some d →
       (d ∉ dom cached_905) ∧
       get_stock_cache sid (h', w') = (Ret (Some d), (h', w')) ∧
       ∃ data, read_one sid (h', w') = Some data ∧ snapshot_at h' d = Some data ∧
               data !! "stock_id" = Some (VStr sid)) ∧
    (tr ≠ ∅ → last_update w' = Some 7).
Proof.
  apply (fetched_quotes_are_cached Qdiv (λ q, q) 7 "09:00:15" ["0000"; "2330"]
           cached_905 worker_898 {[ "2330" := 2%positive ]}).
  reflexivity.
Defined.

End CacheMoreSpec.

(** ** The polling loop *)

Module PollingLoopSpec.
Import ShioajiWorker ShioajiWorkerSpec PollingLoop.

Lemma slept_app fx1 fx2 : slept (fx1 ++ fx2) = slept fx1 + slept fx2.
Proof.
  unfold slept. rewrite omap_app, foldr_app.
  induction (omap _ fx1) as [|x l IH]; cbn; lia.
Qed.

Lemma saves_app fx1 fx2 : saves (fx1 ++ fx2) = saves fx1 ++ saves fx2.
Proof. apply omap_app. Qed.

Lemma full_fetches_app fx1 fx2 : full_fetches (fx1 ++ fx2) = full_fetches fx1 ++ full_fetches fx2.
Proof. apply omap_app. Qed.

Lemma slept_session fx : slept (Session <$> fx) = foldr Z.add 0 (sleeps fx).
Proof.
  unfold slept, sleeps. induction fx as [|e fx IH]; [done|].
  cbn. destruct e; cbn; rewrite ?IH; done.
Qed.

Lemma saves_session fx : saves (Session <$> fx) = [].
Proof. unfold saves. induction fx as [|e fx IH]; [done|]. done. Qed.

Lemma full_fetches_session fx : full_fetches (Session <$> fx) = [].
Proof. unfold full_fetches. induction fx as [|e fx IH]; [done|]. done. Qed.

(** What a [reconnect()] sleeps: a delay of the table unless the retries
    are used up, and the wait for the contracts. *)
Lemma reconnect_sleeps o w :
  0 ≤ foldr Z.add 0 (sleeps (reconnect o w).1.2) ∧
  ((reconnect o w).2 = true → 5 ≤ foldr Z.add 0 (sleeps (reconnect o w).1.2)).
Proof.
  assert (∀ n : nat, foldr Z.add 0 (sleeps (Login :: replicate n (Sleep 1))) = Z.of_nat n) as Hrep.
  { intros n. unfold sleeps. cbn. induction n as [|n IH]; cbn; [done|]. rewrite IH. lia. }
  assert (∀ i, 5 ≤ nth i _retry_delays 0 ∨ (10 ≤ i)%nat) as Hnth.
  { intros i. do 10 (destruct i as [|i]; [left; cbn; lia|]). right. lia. }
  unfold reconnect. destruct (disconnect w) as [w1 fx1] eqn:Hd.
  pose proof (disconnect_quiet w) as [Hs1 _]. pose proof (disconnect_fields w) as [Hc1 _].
  rewrite Hd in Hs1, Hc1. cbn [fst snd] in *.
  destruct (_max_retry <? _) eqn:Hmax; cbn [fst snd].
  - rewrite Hs1. cbn. split; [lia|done].
  - set (i := Z.to_nat _). destruct (Hnth i) as [H5|H10].
    2:{ exfalso. unfold i, _retry_delays in H10. cbn [length] in H10. clear -H10. lia. }
    revert H5. generalize (nth i _retry_delays 0) as d. intros d H5.
    unfold connect. cbn [is_connected set_retry_count]. rewrite Hc1.
    destruct o as [|a|a polls]; cbn [fst snd]; rewrite sleeps_app, Hs1; cbn [app];
      change (Sleep ?d :: ?l) with ([Sleep d] ++ l); rewrite sleeps_app, foldr_app.
    + cbn. split; [lia|done].
    + cbn. split; [lia|done].
    + rewrite Hrep. cbn. split; [lia|]. intros _. lia.
Qed.

Lemma reconnect_ok_connected o w :
  (reconnect o w).2 = true → is_connected (reconnect o w).1.1 = true.
Proof.
  unfold reconnect. destruct (disconnect w) as [w1 fx1] eqn:Hd.
  pose proof (disconnect_fields w) as [Hc1 _]. rewrite Hd in Hc1. cbn [fst] in Hc1.
  destruct (_max_retry <? _); cbn [fst snd]; [done|].
  unfold connect. cbn [is_connected set_retry_count]. rewrite Hc1. by destruct o.
Qed.

Lemma slept_recover o st c fx :
  0 ≤ slept fx → 5 ≤ slept (recover o st c fx).2.
Proof.
  intros Hfx. unfold recover. pose proof (reconnect_sleeps o st.2) as [H0 H5].
  destruct (reconnect o st.2) as [[w' fx'] ok]. cbn [fst snd] in *.
  rewrite !slept_app, slept_session. destruct ok; cbn; [specialize (H5 eq_refl)|]; lia.
Qed.

(** X18: outside the trading sessions the loop only sleeps.  Over passes
    whose clock reading is in no session the heap, the worker and the save
    counter stay as they were and the only effects are sleeps of 60
    seconds: no login, no logout, no watchlist read, no fetch, no save. *)
Theorem idle_passes_only_sleep sessions ticks st c :
  Forall (λ tk, is_trading_time sessions (tick_time tk) = Ret false) ticks →
  passes sessions ticks st c = (st, c, replicate (length ticks) (Session (Sleep 60))).
Proof.
  induction ticks as [|tk ticks IH]; intros Hidle; [done|].
  apply Forall_cons in Hidle as [Htk Hidle]. cbn [passes].
  unfold iteration. rewrite Htk, (IH Hidle). done.
Qed.

Lemma idle_passes_only_sleep_witness :
  passes TRADING_SESSIONS [night_tick; night_tick] (cached_905, worker_898) 2 =
    ((cached_905, worker_898), 2, [Session (Sleep 60); Session (Sleep 60)]).
Proof.
  apply (idle_passes_only_sleep TRADING_SESSIONS [night_tick; night_tick]).
  repeat constructor.
Defined.

(** X19: no pass of the loop spins: whatever the clock, the connection, the
    watchlist and the fetch function do, a pass sleeps at least 5 seconds
    before the next one starts. *)
Theorem every_pass_sleeps sessions tk st c :
  5 ≤ slept (iteration sessions tk st c).2.
Proof.
  unfold iteration.
  destruct (is_trading_time sessions (tick_time tk)) as [[|]|e].
  2: done.
  2: by apply slept_recover.
  assert (∃ w1 fx1 ok,
            (if is_connected st.2 then (st.2, [], true) else reconnect (tick_connect tk) st.2) =
            (w1, fx1, ok) ∧ 0 ≤ foldr Z.add 0 (sleeps fx1)) as (w1 & fx1 & ok & -> & Hfx1).
  { destruct (is_connected st.2); [by exists st.2, [], true|].
    pose proof (reconnect_sleeps (tick_connect tk) st.2) as [H0 _].
    destruct (reconnect (tick_connect tk) st.2) as [[w1 fx1] ok]. by exists w1, fx1, ok. }
  assert (0 ≤ slept (Session <$> fx1)) as Hs by (by rewrite slept_session).
  destruct ok; cbn [negb].
  2:{ cbn [snd]. rewrite slept_app. cbn. lia. }
  destruct (tick_watchlist tk) as [[|sid ids]|e].
  - cbn [snd]. rewrite slept_app. cbn. lia.
  - destruct (tick_fetch tk (sid :: ids) (st.1, w1)) as [[r|e] st2].
    + repeat case_match; cbn [snd]; rewrite !slept_app; cbn; lia.
    + apply slept_recover. rewrite slept_app. cbn. lia.
  - apply slept_recover. rewrite slept_app. cbn. lia.
Qed.

Lemma recover_counts o st c fx :
  (recover o st c fx).1.2 = c ∧
  saves (recover o st c fx).2 = saves fx ∧
  full_fetches (recover o st c fx).2 = full_fetches fx.
Proof.
  unfold recover. destruct (reconnect o st.2) as [[w' fx'] ok]. cbn [fst snd].
  rewrite !saves_app, !full_fetches_app, saves_session, full_fetches_session.
  destruct ok; cbn; by rewrite !app_nil_r.
Qed.

(** One pass: the counter and the counts either stay, or one fetch came
    back with quotes and the counter went up by one, or, from 3, back to 0
    with one save. *)
Lemma iteration_counts sessions tk st c :
  0 ≤ c < 4 →
  let '(_, c', fx) := iteration sessions tk st c in
  0 ≤ c' < 4 ∧
  c + Z.of_nat (length (full_fetches fx)) = 4 * Z.of_nat (length (saves fx)) + c'.
Proof.
  intros Hc. unfold iteration.
  destruct (is_trading_time sessions (tick_time tk)) as [[|]|e].
  2:{ cbn. lia. }
  2:{ pose proof (recover_counts (tick_recover tk) st c []) as (H1 & H2 & H3).
      destruct (recover _ _ _ _) as [[st' c'] fx]. cbn [fst snd] in *. subst c'.
      rewrite H2, H3. cbn. lia. }
  destruct (if is_connected st.2 then _ else _) as [[w1 fx1] ok].
  destruct ok; cbn [negb].
  2:{ rewrite saves_app, full_fetches_app, saves_session, full_fetches_session. cbn. lia. }
  destruct (tick_watchlist tk) as [[|sid ids]|e].
  - rewrite saves_app, full_fetches_app, saves_session, full_fetches_session. cbn. lia.
  - destruct (tick_fetch tk (sid :: ids) (st.1, w1)) as [[r|e] st2].
    + set (results := default ∅ (table_at st2.1 r)).
      destruct (decide (results = ∅)) as [Hempty|Hfull].
      * rewrite !saves_app, !full_fetches_app, saves_session, full_fetches_session.
        cbn. rewrite decide_True by (by rewrite Hempty, dom_empty_L). cbn. lia.
      * assert (dom results ≠ (∅ : gset string)) as Hdom.
        { intros H. by apply dom_empty_inv_L in H. }
        destruct (Z.leb_spec 4 (c + 1));
          rewrite !saves_app, !full_fetches_app, saves_session, full_fetches_session;
          cbn; rewrite decide_False by done; cbn; lia.
    + pose proof (recover_counts (tick_recover tk) st2 c
                    ((Session <$> fx1) ++ [GetWatchlist; Fetch (sid :: ids) None]))
        as (H1 & H2 & H3).
      destruct (recover _ _ _ _) as [[st' c'] fx]. cbn [fst snd] in *. subst c'.
      rewrite H2, H3, saves_app, full_fetches_app, saves_session, full_fetches_session.
      cbn. lia.
  - pose proof (recover_counts (tick_recover tk) (st.1, w1) c
                  ((Session <$> fx1) ++ [GetWatchlist])) as (H1 & H2 & H3).
    destruct (recover _ _ _ _) as [[st' c'] fx]. cbn [fst snd] in *. subst c'.
    rewrite H2, H3, saves_app, full_fetches_app, saves_session, full_fetches_session.
    cbn. lia.
Qed.

Lemma passes_counts sessions ticks : ∀ st c,
  0 ≤ c < 4 →
  0 ≤ (passes sessions ticks st c).1.2 < 4 ∧
  c + Z.of_nat (length (full_fetches (passes sessions ticks st c).2)) =
    4 * Z.of_nat (length (saves (passes sessions ticks st c).2)) + (passes sessions ticks st c).1.2.
Proof.
  induction ticks as [|tk ticks IH]; intros st c Hc; [cbn; lia|].
  cbn [passes]. pose proof (iteration_counts sessions tk st c Hc) as H1.
  destruct (iteration sessions tk st c) as [[st1 c1] fx1]. destruct H1 as [Hc1 He1].
  specialize (IH st1 c1 Hc1).
  destruct (passes sessions ticks st1 c1) as [[st2 c2] fx2]. cbn [fst snd] in *.
  rewrite saves_app, full_fetches_app, !length_app. lia.
Qed.

(** X20: the loop writes quotes to the database on every fourth fetch that
    came back with quotes, and on those only: over any passes of
    [_worker_loop], with [n] such fetches there are [n / 4] save passes. *)
Theorem saves_every_fourth_fetch sessions ticks st :
  Z.of_nat (length (saves (_worker_loop sessions ticks st).2)) =
    Z.of_nat (length (full_fetches (_worker_loop sessions ticks st).2)) / 4.
Proof.
  unfold _worker_loop.
  pose proof (passes_counts sessions ticks st 0 ltac:(lia)) as [Hc He].
  destruct (passes sessions ticks st 0) as [[st' c'] fx]. cbn [fst snd] in *.
  apply (Z.div_unique _ 4 _ c'); lia.
Qed.

(** X21: the loop calls the fetch function on a connected worker only: a
    pass comes out the same with any other fetch function that agrees with
    the bound one on connected workers. *)
Theorem fetch_called_when_connected sessions tk f st c :
  (∀ ids h w, is_connected w = true → f ids (h, w) = tick_fetch tk ids (h, w)) →
  iteration sessions (with_fetch f tk) st c = iteration sessions tk st c.
Proof.
  intros Hagree. unfold iteration, with_fetch.
  cbn [tick_time tick_connect tick_watchlist tick_fetch tick_recover].
  destruct (is_trading_time sessions (tick_time tk)) as [[|]|e]; try done.
  assert (∀ w1 fx1, (if is_connected st.2 then (st.2, [], true)
                     else reconnect (tick_connect tk) st.2) = (w1, fx1, true) →
                    is_connected w1 = true) as Hconn.
  { intros w1 fx1. destruct (is_connected st.2) eqn:E.
    - by intros [= <- _].
    - intros H. pose proof (reconnect_ok_connected (tick_connect tk) st.2) as Hok.
      rewrite H in Hok. by apply Hok. }
  destruct (if is_connected st.2 then _ else _) as [[w1 fx1] ok].
  destruct ok; [|done]. cbn [negb].
  destruct (tick_watchlist tk) as [[|sid ids]|e]; try done.
  by rewrite (Hagree _ _ _ (Hconn w1 fx1 eq_refl)).
Qed.

Lemma fetch_called_when_connected_witness :
  iteration TRADING_SESSIONS
    (with_fetch (λ ids st, if is_connected st.2 then tick_fetch morning_tick ids st
                           else (Exc (Raise "offline"), st)) morning_tick)
    (cached_905, worker_898) 0 =
  iteration TRADING_SESSIONS morning_tick (cached_905, worker_898) 0.
Proof.
  apply fetch_called_when_connected. intros ids h w Hc. cbn [snd]. by rewrite Hc.
Defined.

End PollingLoopSpec.

(** ** Once a day, and the retries of the model *)

Module JobsMoreSpec.
Import Jobs JobsSpec JobsMore.

Lemma digit_char_inj a b : digit_char a = digit_char b → a mod 10 = b mod 10.
Proof.
  unfold digit_char. intros H. apply (f_equal nat_of_ascii) in H.
  pose proof (Z.mod_pos_bound a 10 ltac:(lia)). pose proof (Z.mod_pos_bound b 10 ltac:(lia)).
  rewrite !nat_ascii_embedding in H by lia. lia.
Qed.

(** Two dates with the same [isoformat()] are the same date. *)
Lemma isoformat_inj d d' : valid_date d → valid_date d' → isoformat d = isoformat d' → d = d'.
Proof.
  intros (Hy & Hm & Hd) (Hy' & Hm' & Hd'). unfold isoformat. intros H.
  injection H as Y1 Y2 Y3 Y4 M1 M2 D1 D2.
  apply digit_char_inj in Y1, Y2, Y3, Y4, M1, M2, D1, D2.
  destruct d as [y m dd], d' as [y' m' dd']. cbn in *.
  f_equal; Z.div_mod_to_equations; lia.
Qed.

Section Institutional.
Context {Market Stocks : Type}.
Implicit Types (market : result Market) (stocks : result Stocks).

(** X22: on a working day [scheduled_fetch] gets its job done once.  A
    firing whose two fetch calls return records the day, and every later
    firing of that day does nothing; a firing whose body raises leaves the
    date alone, so the next firing of the day makes the calls again; and
    [manual_fetch] never records the day, so a scheduled firing after it
    still runs. *)
Theorem scheduled_fetch_once_a_day today market stocks market' stocks' date_str
        (w : InstitutionalWorker) :
  weekday today < 5 → last_fetch_date w ≠ Some (isoformat today) →
  (body_outcome market stocks = Ret tt →
     scheduled_fetch Market Stocks today market' stocks'
       (scheduled_fetch Market Stocks today market stocks w).1.1 =
     ((scheduled_fetch Market Stocks today market stocks w).1.1, [], Ret tt)) ∧
  (∀ e, body_outcome market stocks = Exc e →
     (scheduled_fetch Market Stocks today market' stocks'
        (scheduled_fetch Market Stocks today market stocks w).1.1).1.2 =
     body_calls None market') ∧
  (scheduled_fetch Market Stocks today market' stocks'
     (manual_fetch Market Stocks date_str market stocks w).1.1).1.2 = body_calls None market'.
Proof.
  intros Hwd Hne. assert ((5 <=? weekday today) = false) as H5 by (apply Z.leb_gt; lia).
  assert (∀ w', last_fetch_date w' ≠ Some (isoformat today) →
            (scheduled_fetch Market Stocks today market' stocks' w').1.2 =
            body_calls None market') as Hruns.
  { intros w' Hw'. unfold scheduled_fetch. rewrite H5, bool_decide_false by done.
    by destruct market', stocks'. }
  split; [|split].
  - intros Hok. unfold scheduled_fetch at 2 3. rewrite H5, bool_decide_false by done.
    destruct market, stocks; try done. cbn [fst].
    unfold scheduled_fetch. by rewrite H5, bool_decide_true.
  - intros e He. apply Hruns. unfold scheduled_fetch. rewrite H5, bool_decide_false by done.
    by destruct market, stocks.
  - apply Hruns. unfold manual_fetch. by destruct market, stocks.
Qed.

(** X23: the guard of [scheduled_fetch] tells days apart: once a day is
    recorded as fetched, a firing on any other working day makes its fetch
    calls. *)
Theorem other_day_is_fetched day today market stocks (w : InstitutionalWorker) :
  valid_date day → valid_date today → day ≠ today → weekday today < 5 →
  last_fetch_date w = Some (isoformat day) →
  (scheduled_fetch Market Stocks today market stocks w).1.2 = body_calls None market.
Proof.
  intros Hv Hv' Hne Hwd Hlast.
  assert ((5 <=? weekday today) = false) as H5 by (apply Z.leb_gt; lia).
  unfold scheduled_fetch. rewrite H5, bool_decide_false.
  - by destruct market, stocks.
  - rewrite Hlast. intros Hiso. apply Hne, isoformat_inj; [done|done|congruence].
Qed.

End Institutional.

Lemma scheduled_fetch_once_a_day_witness :
  scheduled_fetch unit unit monday (Ret tt) (Ret tt)
    (scheduled_fetch unit unit monday (Ret tt) (Ret tt) institutional_init).1.1 =
  ((scheduled_fetch unit unit monday (Ret tt) (Ret tt) institutional_init).1.1, [], Ret tt).
Proof.
  apply (proj1 (scheduled_fetch_once_a_day monday (Ret tt) (Ret tt) (Ret tt) (Ret tt) None
                  institutional_init eq_refl ltac:(discriminate))).
  reflexivity.
Defined.

Lemma other_day_is_fetched_witness :
  (scheduled_fetch unit unit (mkDate 2024 6 18) (Ret tt) (Ret tt)
     (mkInstitutional (Some "2024-06-17") "success")).1.2 = body_calls None (Ret tt).
Proof.
  apply (other_day_is_fetched monday (mkDate 2024 6 18)).
  - unfold valid_date. cbn. lia.
  - unfold valid_date. cbn. lia.
  - discriminate.
  - reflexivity.
  - reflexivity.
Defined.

Lemma isoformat_nonempty d : isoformat d ≠ "".
Proof. unfold isoformat. discriminate. Qed.

Lemma date_or_today_isoformat d today : date_or_today (Some (isoformat d)) today = isoformat d.
Proof.
  cbn [date_or_today]. destruct (String.eqb_spec (isoformat d) ""); [|done].
  by destruct (isoformat_nonempty d).
Qed.

(** X24: the review job runs once a day too, and a review asked for by hand
    counts.  After [generate_daily_review] has returned, a scheduled firing
    of today does nothing exactly when the review was for today - the
    scheduled one, or one made by hand with no date, an empty date or
    today's date; a review that raises records nothing, and a review made
    by hand for another date leaves the scheduled one of today to run. *)
Theorem review_once_a_day today date_str review' text (a : AIAnalyzer) :
  weekday today < 5 → valid_date today →
  (scheduled_daily_review today today review'
     (generate_daily_review date_str today (Ret text) a).1.1 =
   ((generate_daily_review date_str today (Ret text) a).1.1, [], Ret tt)
   ↔ date_str = None ∨ date_str = Some "" ∨ date_str = Some (isoformat today)) ∧
  (last_review_date a ≠ Some (isoformat today) →
   scheduled_daily_review today today review'
     (scheduled_daily_review today today (Ret text) a).1.1 =
   ((scheduled_daily_review today today (Ret text) a).1.1, [], Ret tt)) ∧
  (∀ e, (generate_daily_review date_str today (Exc e) a).1.1 = a) ∧
  (∀ day, valid_date day → day ≠ today →
     (scheduled_daily_review today today review'
        (generate_daily_review (Some (isoformat day)) today (Ret text) a).1.1).1.2 =
     [GenerateReview (isoformat today)]).
Proof.
  intros Hwd Hv. assert ((5 <=? weekday today) = false) as H5 by (apply Z.leb_gt; lia).
  assert (date_or_today date_str today = isoformat today
          ↔ date_str = None ∨ date_str = Some "" ∨ date_str = Some (isoformat today)) as Hdate.
  { destruct date_str as [s|]; cbn [date_or_today]; [|split; [by left|done]].
    destruct (String.eqb_spec s "") as [->|Hs].
    - split; [intros _; right; by left|done].
    - split; [intros ->; right; by right|]. intros [?|[?|?]]; congruence. }
  split; [|split; [|split]].
  - rewrite <- Hdate. unfold generate_daily_review. cbn [fst]. unfold scheduled_daily_review.
    rewrite H5. cbn [last_review_date]. split.
    + intros H. case_bool_decide as Hd; [congruence|].
      unfold generate_daily_review in H. destruct review'; cbn in H; congruence.
    + intros ->. by rewrite bool_decide_true.
  - intros Hne. unfold scheduled_daily_review at 2 3. rewrite H5, bool_decide_false by done.
    cbn. unfold scheduled_daily_review. by rewrite H5, bool_decide_true.
  - done.
  - intros day Hvd Hne. unfold generate_daily_review. rewrite date_or_today_isoformat.
    cbn [fst]. unfold scheduled_daily_review. rewrite H5. cbn [last_review_date].
    rewrite bool_decide_false.
    + by destruct review'.
    + intros Hiso. apply Hne, isoformat_inj; [done|done|congruence].
Qed.

Lemma review_once_a_day_witness :
  scheduled_daily_review monday monday (Ret "again")
    (generate_daily_review (Some "") monday (Ret "review") (mkAnalyzer None)).1.1 =
  ((generate_daily_review (Some "") monday (Ret "review") (mkAnalyzer None)).1.1, [], Ret tt).
Proof.
  apply (proj1 (review_once_a_day monday (Some "") (Ret "again") "review"
                  (mkAnalyzer None) eq_refl
                  ltac:(unfold valid_date; cbn; lia))).
  right. left. reflexivity.
Defined.

Lemma attempts_spec responses (n : nat) todo : ∀ (a : nat),
  (a + todo = n + 1)%nat →
  (∀ k text, (a ≤ k ≤ n)%nat → (∀ j, (a ≤ j < k)%nat → ∃ e, responses j = Exc e) →
     responses k = Ret text →
     attempts responses (Z.of_nat n) todo (Z.of_nat a) = (Some text, (k - a + 1)%nat)) ∧
  (∀ e, (a ≤ n)%nat → (∀ j, (a ≤ j < n)%nat → ∃ e', responses j = Exc e') →
     responses n = Exc e →
     attempts responses (Z.of_nat n) todo (Z.of_nat a) = (Some (unavailable e), (n - a + 1)%nat)) ∧
  (fst (attempts responses (Z.of_nat n) todo (Z.of_nat a)) ≠ None ∨ todo = 0%nat) ∧
  (snd (attempts responses (Z.of_nat n) todo (Z.of_nat a)) ≤ todo)%nat.
Proof.
  induction todo as [|todo IH]; intros a Ha.
  { split; [intros; lia|]. split; [intros; lia|]. split; [by right|done]. }
  cbn [attempts]. rewrite Nat2Z.id.
  destruct (IH (S a) ltac:(lia)) as (IH1 & IH2 & IH3 & IH4).
  replace (Z.of_nat (S a)) with (Z.of_nat a + 1) in * by lia.
  destruct (responses a) as [text0|e0] eqn:Hra.
  - split; [|split; [|split; [by left|cbn; lia]]].
    + intros k text Hk Hfail Hok. destruct (decide (k = a)) as [->|Hne].
      * rewrite Hra in Hok. injection Hok as <-. f_equal. lia.
      * destruct (Hfail a ltac:(lia)) as [e He]. congruence.
    + intros e Hle Hfail Hn. destruct (decide (n = a)) as [->|Hne]; [congruence|].
      destruct (Hfail a ltac:(lia)) as [e' He']. congruence.
  - destruct (Z.eqb_spec (Z.of_nat a) (Z.of_nat n)) as [Heq|Hneq].
    + apply Nat2Z.inj in Heq. subst a.
      split; [|split; [|split; [by left|cbn; lia]]].
      * intros k text Hk Hfail Hok. assert (k = n) as -> by lia. congruence.
      * intros e Hle Hfail Hn. rewrite Hra in Hn. injection Hn as <-. f_equal. lia.
    + assert (a ≠ n) as Hne by congruence.
      split; [|split; [|split]].
      * intros k text Hk Hfail Hok. destruct (decide (k = a)) as [->|Hka]; [congruence|].
        rewrite (IH1 k text); [|lia|intros j Hj; apply Hfail; lia|done].
        f_equal. lia.
      * intros e Hle Hfail Hn.
        rewrite (IH2 e); [|lia|intros j Hj; apply Hfail; lia|done].
        f_equal. lia.
      * destruct (attempts responses (Z.of_nat n) todo (Z.of_nat a + 1)) as [r calls].
        cbn [fst snd] in *. destruct IH3 as [?|Htodo]; [by left|]. lia.
      * destruct (attempts responses (Z.of_nat n) todo (Z.of_nat a + 1)) as [r calls].
        cbn [fst snd] in *. lia.
Qed.

(** X25: [generate] calls the model at most [max_retries + 1] times, three
    by default.  It returns the text of the first call that succeeds and
    makes no call after it; if every call fails it returns the
    "unavailable" text made from the last exception; with a negative
    [max_retries] it makes no call and returns None.  No exception of a
    call of the model leaves it: the one exception it can raise is that of
    [init_model], before any call. *)
Theorem generate_retries model init_model responses max_retries :
  (∀ e, (generate model init_model responses max_retries).1 = Exc e →
     model = false ∧ init_model = Exc e ∧
     (generate model init_model responses max_retries).2 = 0%nat) ∧
  (model = true ∨ init_model = Ret tt →
   (max_retries < 0 →
      generate model init_model responses max_retries = (Ret None, 0%nat)) ∧
   (0 ≤ max_retries →
    ((generate model init_model responses max_retries).2 ≤ Z.to_nat max_retries + 1)%nat ∧
    (∀ k text, (k ≤ Z.to_nat max_retries)%nat →
       (∀ j, (j < k)%nat → ∃ e, responses j = Exc e) → responses k = Ret text →
       generate model init_model responses max_retries = (Ret (Some text), S k)) ∧
    (∀ e, (∀ j, (j < Z.to_nat max_retries)%nat → ∃ e', responses j = Exc e') →
       responses (Z.to_nat max_retries) = Exc e →
       generate model init_model responses max_retries =
         (Ret (Some (unavailable e)), S (Z.to_nat max_retries))))).
Proof.
  split.
  { intros e. unfold generate.
    destruct (attempts responses max_retries (Z.to_nat (max_retries + 1)) 0) as [r calls].
    destruct model; [done|]. destruct init_model as [[]|e']; [done|].
    cbn. intros [= ->]. done. }
  intros Hloaded.
  assert (generate model init_model responses max_retries =
          ((Ret (attempts responses max_retries (Z.to_nat (max_retries + 1)) 0).1),
           (attempts responses max_retries (Z.to_nat (max_retries + 1)) 0).2)) as ->.
  { unfold generate.
    destruct (attempts responses max_retries (Z.to_nat (max_retries + 1)) 0) as [r calls].
    destruct model; [done|]. destruct Hloaded as [?| ->]; done. }
  split.
  - intros Hneg. replace (Z.to_nat (max_retries + 1)) with 0%nat by lia. done.
  - intros Hpos. set (n := Z.to_nat max_retries).
    replace (Z.to_nat (max_retries + 1)) with (S n) by lia.
    replace max_retries with (Z.of_nat n) by lia.
    destruct (attempts_spec responses n (S n) 0%nat ltac:(lia)) as (H1 & H2 & H3 & H4).
    change (Z.of_nat 0) with 0 in *. cbn [fst snd].
    split; [lia|]. split.
    + intros k text Hk Hfail Hok. rewrite (H1 k text); [cbn; do 2 f_equal; lia|lia| |done].
      intros j Hj. apply Hfail. lia.
    + intros e Hfail Hn. rewrite (H2 e); [cbn; do 2 f_equal; lia|lia| |done].
      intros j Hj. apply Hfail. lia.
Qed.

Lemma generate_retries_witness :
  generate false (Ret tt)
    (λ j, if decide (j = 1%nat) then Ret "text" else Exc (Raise "quota")) 2 =
    (Ret (Some "text"), 2%nat).
Proof.
  apply (proj1 (proj2 (proj2 (proj2 (generate_retries false (Ret tt)
           (λ j, if decide (j = 1%nat) then Ret "text" else Exc (Raise "quota")) 2)
           (or_intror eq_refl)) ltac:(lia))) 1%nat "text").
  - cbn. lia.
  - intros j Hj. exists (Raise "quota"). destruct j; [reflexivity|lia].
  - reflexivity.
Defined.

End JobsMoreSpec.
